(** * SocketBase: a layered messaging endpoint over a byte stream

    A shallow embedding of [SocketBase.py].  The endpoint object becomes a
    record that is threaded through every method; methods that can raise
    return an [outcome].  The model is sequential: one thread of control
    calls the methods, so every lock acquisition succeeds at once and the
    locks carry no state. *)

From Stdlib Require Import ZArith QArith Lia Bool List.
From Stdlib Require Import Strings.Byte.
From stdpp Require Import base gmap list sorting.
Import ListNotations.

Local Open Scope Z_scope.

(** ** Bytes and [struct] *)

Abbreviation bytes := (list Byte.byte).

#[global] Instance byte_eq_decision : EqDecision Byte.byte := Byte.byte_eq_dec.

Definition Z_of_byte (b : Byte.byte) : Z := Z.of_N (Byte.to_N b).

Definition byte_of_Z (z : Z) : Byte.byte :=
  match Byte.of_N (Z.to_N (z mod 256)) with
  | Some b => b
  | None => Byte.x00
  end.

(** Big-endian encoding of [z] on [w] bytes (the low [8*w] bits of [z]). *)
Fixpoint be_encode (w : nat) (z : Z) : bytes :=
  match w with
  | O => []
  | S w' => be_encode w' (z / 256) ++ [byte_of_Z z]
  end.

Definition be_decode (bs : bytes) : Z :=
  fold_left (fun acc b => acc * 256 + Z_of_byte b) bs 0.

Definition blen (bs : bytes) : Z := Z.of_nat (length bs).

(** [struct.pack('>I', n)]: [None] stands for [struct.error]. *)
Definition struct_pack_I (n : Z) : option bytes :=
  if (0 <=? n) && (n <? 2 ^ 32) then Some (be_encode 4 n) else None.

(** [struct.unpack('>I', bs)]: the buffer must hold exactly 4 bytes. *)
Definition struct_unpack_I (bs : bytes) : option Z :=
  if (length bs =? 4)%nat then Some (be_decode bs) else None.

(** [struct.pack('>QQ', a, b)]. *)
Definition struct_pack_QQ (a b : Z) : option bytes :=
  if (0 <=? a) && (a <? 2 ^ 64) && (0 <=? b) && (b <? 2 ^ 64)
  then Some (be_encode 8 a ++ be_encode 8 b) else None.

(** [struct.unpack_from('>QQ', bs)]: the buffer must hold at least 16 bytes. *)
Definition struct_unpack_from_QQ (bs : bytes) : option (Z * Z) :=
  if (16 <=? length bs)%nat
  then Some (be_decode (take 8 bs), be_decode (take 8 (drop 8 bs)))
  else None.

(** [struct.calcsize('>I')] and [struct.calcsize('>QQ')]. *)
Definition hdrsz_I : nat := 4.
Definition hdrsz_QQ : nat := 16.

(** ** [io.BytesIO] *)

Module BytesIO.

Record t := mk { content : bytes; pos : nat }.

Definition empty : t := mk [] 0.

Definition tell (b : t) : nat := pos b.

(** [seek(n)] *)
Definition seek (n : nat) (b : t) : t := mk (content b) n.

(** [seek(0, 2)] *)
Definition seek_end (b : t) : t := mk (content b) (length (content b)).

(** [write(data)]: overwrites from the position on, growing the buffer
    (with zero padding when the position is past the end). *)
Definition write (data : bytes) (b : t) : t :=
  let padded := content b ++ repeat Byte.x00 (pos b - length (content b)) in
  mk (take (pos b) padded ++ data ++ drop (pos b + length data) padded)
     (pos b + length data).

(** [read(n)]; a negative [n] reads to the end. *)
Definition read (n : Z) (b : t) : bytes * t :=
  let avail := drop (pos b) (content b) in
  let r := if n <? 0 then avail else take (Z.to_nat n) avail in
  (r, mk (content b) (pos b + length r)).

(** [read()] *)
Definition read_all (b : t) : bytes * t := read (-1) b.

End BytesIO.

(** ** The endpoint *)

(** A vector message, the tuple [(vector, rvector, msg)]. *)
Definition vmsg : Type := Z * Z * bytes.

Definition vm_vector (m : vmsg) : Z := fst (fst m).
Definition vm_rvector (m : vmsg) : Z := snd (fst m).
Definition vm_payload (m : vmsg) : bytes := snd m.

(** The [callback] argument is a pair [(function, argument)]; both are
    opaque handles here. *)
Record cb_record := mk_cb { cb_fn : nat; cb_arg : nat }.

(** Effects that leave the endpoint object: data handed to the outbound
    path by [send1], callbacks invoked by the dispatcher.  Registrations in
    the two tables are recorded as well, so that the order of a registration
    and of the hand-over of the frame can be read off the history. *)
Inductive event :=
| EvKeep (v : Z)
| EvCallback (v : Z) (cb : cb_record)
| EvWire (data : bytes)
| EvInvoke (cb : cb_record) (v rv : Z) (msg : bytes).

(** The attributes of the object, and two things it reads or leaves behind:
    [wallclock], the reading that [time.time()] gives, and [history], the
    events so far.  The socket itself is not part of it; what it reports is
    an argument of the methods that ask it. *)
Record SocketBase := mkSocketBase {
  inbuf : BytesIO.t;
  inbuf_cursz : option Z;
  oubuf : list bytes;
  oubufsz : Z;
  vector : Z;
  keepresult : gmap Z (option vmsg);
  callback : gmap Z cb_record;
  slow : list (Q * bytes);
  slowsz : Z;
  wallclock : Q;
  history : list event
}.

(** [SocketBase.__init__] *)
Definition __init__ : SocketBase :=
  {| inbuf := BytesIO.empty; inbuf_cursz := None;
     oubuf := []; oubufsz := 0; vector := 0;
     keepresult := ∅; callback := ∅;
     slow := []; slowsz := 0; wallclock := 0%Q; history := [] |}.

Definition set_inbuf (b : BytesIO.t) (s : SocketBase) : SocketBase :=
  mkSocketBase b (inbuf_cursz s) (oubuf s) (oubufsz s) (vector s)
    (keepresult s) (callback s) (slow s) (slowsz s) (wallclock s) (history s).
Definition set_inbuf_cursz (c : option Z) (s : SocketBase) : SocketBase :=
  mkSocketBase (inbuf s) c (oubuf s) (oubufsz s) (vector s)
    (keepresult s) (callback s) (slow s) (slowsz s) (wallclock s) (history s).
Definition set_oubuf (q : list bytes) (s : SocketBase) : SocketBase :=
  mkSocketBase (inbuf s) (inbuf_cursz s) q (oubufsz s) (vector s)
    (keepresult s) (callback s) (slow s) (slowsz s) (wallclock s) (history s).
Definition set_oubufsz (n : Z) (s : SocketBase) : SocketBase :=
  mkSocketBase (inbuf s) (inbuf_cursz s) (oubuf s) n (vector s)
    (keepresult s) (callback s) (slow s) (slowsz s) (wallclock s) (history s).
Definition set_vector (v : Z) (s : SocketBase) : SocketBase :=
  mkSocketBase (inbuf s) (inbuf_cursz s) (oubuf s) (oubufsz s) v
    (keepresult s) (callback s) (slow s) (slowsz s) (wallclock s) (history s).
Definition set_keepresult (k : gmap Z (option vmsg)) (s : SocketBase) : SocketBase :=
  mkSocketBase (inbuf s) (inbuf_cursz s) (oubuf s) (oubufsz s) (vector s)
    k (callback s) (slow s) (slowsz s) (wallclock s) (history s).
Definition set_callback (c : gmap Z cb_record) (s : SocketBase) : SocketBase :=
  mkSocketBase (inbuf s) (inbuf_cursz s) (oubuf s) (oubufsz s) (vector s)
    (keepresult s) c (slow s) (slowsz s) (wallclock s) (history s).
Definition set_slow (l : list (Q * bytes)) (s : SocketBase) : SocketBase :=
  mkSocketBase (inbuf s) (inbuf_cursz s) (oubuf s) (oubufsz s) (vector s)
    (keepresult s) (callback s) l (slowsz s) (wallclock s) (history s).
Definition set_slowsz (n : Z) (s : SocketBase) : SocketBase :=
  mkSocketBase (inbuf s) (inbuf_cursz s) (oubuf s) (oubufsz s) (vector s)
    (keepresult s) (callback s) (slow s) n (wallclock s) (history s).
Definition set_wallclock (t : Q) (s : SocketBase) : SocketBase :=
  mkSocketBase (inbuf s) (inbuf_cursz s) (oubuf s) (oubufsz s) (vector s)
    (keepresult s) (callback s) (slow s) (slowsz s) t (history s).
Definition log (e : event) (s : SocketBase) : SocketBase :=
  mkSocketBase (inbuf s) (inbuf_cursz s) (oubuf s) (oubufsz s) (vector s)
    (keepresult s) (callback s) (slow s) (slowsz s) (wallclock s) (history s ++ [e]).

(** ** Results of method calls *)

Inductive exn :=
| ConnectionLostException
| StructError
| CallbackMissing
| UnknownMode (mode : Z).

(** A call returns a value, raises, or never returns (a blocking [select]
    on which nothing ever becomes ready).  The endpoint as the call left it
    comes with each. *)
Inductive outcome (A : Type) :=
| Ret (a : A) (s : SocketBase)
| Raise (e : exn) (s : SocketBase)
| Hang (s : SocketBase).
Arguments Ret {A} a s.
Arguments Raise {A} e s.
Arguments Hang {A} s.

Definition bind {A B} (m : outcome A) (k : A -> SocketBase -> outcome B) : outcome B :=
  match m with
  | Ret a s => k a s
  | Raise e s => Raise e s
  | Hang s => Hang s
  end.

Definition state_of {A} (m : outcome A) : SocketBase :=
  match m with Ret _ s | Raise _ s | Hang s => s end.

Notation "'do' x , s <- m ; k" := (bind m (fun x s => k))
  (at level 10, x name, s name, m at level 100, k at level 200).

(** ** Layer 2: receiving length-prefixed messages *)

(** The second half of [getMessage2], entered with the length of the
    message known: [if (self.inbuf.tell() - hdrsz) >= self.inbuf_cursz]. *)
Definition take_payload (cursz : Z) (s : SocketBase) : outcome (option bytes) :=
  if Z.of_nat (BytesIO.tell (inbuf s)) - Z.of_nat hdrsz_I >=? cursz then
    let b := BytesIO.seek hdrsz_I (inbuf s) in
    let '(rdata, b) := BytesIO.read cursz b in
    (* place remaining data into a new buffer *)
    let '(rest, _) := BytesIO.read_all b in
    let s := set_inbuf (BytesIO.write rest BytesIO.empty) s in
    let s := set_inbuf_cursz None s in
    Ret (Some rdata) s
  else Ret None s.

(** [getMessage2(data)] *)
Definition getMessage2 (data : option bytes) (s : SocketBase) : outcome (option bytes) :=
  let s := match data with
           | Some d => set_inbuf (BytesIO.write d (inbuf s)) s
           | None => s
           end in
  match inbuf_cursz s with
  | None =>
      (* do we have enough to read the header? *)
      if (hdrsz_I <? BytesIO.tell (inbuf s))%nat then
        let b := BytesIO.seek 0 (inbuf s) in
        let '(hdr, b) := BytesIO.read (Z.of_nat hdrsz_I) b in
        match struct_unpack_I hdr with
        | None => Raise StructError (set_inbuf b s)
        | Some sz =>
            let s := set_inbuf_cursz (Some sz) (set_inbuf (BytesIO.seek_end b) s) in
            take_payload sz s
        end
      else Ret None s
  | Some cursz => take_payload cursz s
  end.

(** The loop of [getAllMessages2]: [while True: msg = getMessage2(data); ...].
    [n] bounds the number of iterations. *)
Fixpoint getAllMessages2_loop (n : nat) (data : option bytes) (s : SocketBase)
  : outcome (list bytes) :=
  match n with
  | O => Ret [] s
  | S n' =>
      do msg, s <- getMessage2 data s;
      match msg with
      | None => Ret [] s
      | Some m =>
          do msgs, s <- getAllMessages2_loop n' None s;
          Ret (m :: msgs) s
      end
  end.

(** Every message cut out of the buffer removes at least its header, so the
    loop runs at most this many times ([getAllMessages2_unfold] below shows
    that the bound is never what ends it). *)
Definition drain_bound (data : option bytes) (s : SocketBase) : nat :=
  2 + length (BytesIO.content (inbuf s)) + BytesIO.pos (inbuf s)
    + match data with Some d => length d | None => 0%nat end.

(** [getAllMessages2(data)] *)
Definition getAllMessages2 (data : option bytes) (s : SocketBase) : outcome (list bytes) :=
  getAllMessages2_loop (drain_bound data s) data s.

(** ** Layer 1: the outbound path *)

(** [getOutBufferSize1()] *)
Definition getOutBufferSize1 (s : SocketBase) : Z := oubufsz s.

(** [send1(data, block)].  With the latency simulation in place the data is
    not put on [oubuf]: it is time-stamped and staged on [slow], and
    [latencySimThread] moves it over later.  Without data the call does
    nothing. *)
Definition send1 (data : option bytes) (block : bool) (s : SocketBase) : SocketBase :=
  match data with
  | Some d =>
      let s := set_slowsz (slowsz s + blen d) s in
      let s := set_slow (slow s ++ [(wallclock s, d)]) s in
      log (EvWire d) s
  | None => s
  end.

(** One answer of [sock.send]: [None] is [socket.error], [Some k] a socket
    that takes at most [k] of the bytes offered. *)
Definition send_answer : Type := option nat.

(** The inner loop of [__send1]: [while totalsent < len(data)].  The result
    tells whether the chunk went out whole, how much of it went out, and
    which answers are left.  A socket with no answer left takes nothing
    more, as [socket.error] does. *)
Fixpoint send_chunk (answers : list send_answer) (data : bytes) (totalsent : nat)
  : bool * nat * list send_answer :=
  if (totalsent <? length data)%nat then
    match answers with
    | [] => (false, totalsent, [])
    | None :: answers' => (false, totalsent, answers')
    | Some k :: answers' =>
        let sent := Nat.min k (length data - totalsent) in
        if (sent =? 0)%nat then (false, totalsent, answers')
        else send_chunk answers' data (totalsent + sent)
    end
  else (true, totalsent, answers).

(** The outer loop of [__send1]: [while len(self.oubuf) > 0]. *)
Fixpoint send_queue (answers : list send_answer) (q : list bytes) (sz : Z)
  : list bytes * Z :=
  match q with
  | [] => ([], sz)
  | data :: q' =>
      let '(whole, totalsent, answers') := send_chunk answers data 0 in
      if whole then send_queue answers' q' (sz - Z.of_nat totalsent)
      else (drop totalsent data :: q', sz - Z.of_nat totalsent)
  end.

(** [__send1(data, block)]: drains [oubuf]; [data] is not looked at. *)
Definition __send1 (answers : list send_answer) (s : SocketBase) : SocketBase :=
  let '(q, sz) := send_queue answers (oubuf s) (oubufsz s) in
  set_oubufsz sz (set_oubuf q s).

(** [time.time() - item[0] > 2] *)
Definition overdue (now : Q) (item : Q * bytes) : bool :=
  negb (Qle_bool (now - fst item) 2).

(** The first loop of [__latencySimThread]: overdue items go to the right
    end of [oubuf]; [tr] collects them. *)
Fixpoint stage_out (now : Q) (items : list (Q * bytes)) (tr : list (Q * bytes))
  (s : SocketBase) : list (Q * bytes) * SocketBase :=
  match items with
  | [] => (tr, s)
  | item :: items' =>
      if overdue now item then
        let s := set_oubuf (oubuf s ++ [snd item]) s in
        let s := set_oubufsz (oubufsz s + blen (snd item)) s in
        let s := set_slowsz (slowsz s - blen (snd item)) s in
        stage_out now items' (tr ++ [item]) s
      else stage_out now items' tr s
  end.

Definition item_eqb (x y : Q * bytes) : bool :=
  Qeq_bool (fst x) (fst y) && bool_decide (snd x = snd y).

(** [list.remove(item)]: drops the first element equal to [item]. *)
Fixpoint list_remove (item : Q * bytes) (l : list (Q * bytes)) : list (Q * bytes) :=
  match l with
  | [] => []
  | x :: l' => if item_eqb x item then l' else x :: list_remove item l'
  end.

(** One round of [__latencySimThread], with the answers the socket gives
    to the [send] calls of that round. *)
Definition __latencySimThread (answers : list send_answer) (s : SocketBase) : SocketBase :=
  let '(tr, s) := stage_out (wallclock s) (slow s) [] s in
  let s := set_slow (fold_left (fun l item => list_remove item l) tr (slow s)) s in
  if 0 <? getOutBufferSize1 s then __send1 answers s else s.

(** ** Layer 2 and 3: sending *)

(** [sendMessage2(msg, block)] *)
Definition sendMessage2 (msg : bytes) (block : bool) (s : SocketBase) : outcome unit :=
  match struct_pack_I (blen msg) with
  | None => Raise StructError s
  | Some hdr => Ret tt (send1 (Some (hdr ++ msg)) block s)
  end.

(** [sendVectorMessage3(msg, rvector, block)] *)
Definition sendVectorMessage3 (msg : bytes) (rvector : Z) (block : bool) (s : SocketBase)
  : outcome Z :=
  match struct_pack_QQ (vector s) rvector with
  | None => Raise StructError s
  | Some hdr =>
      do _, s <- sendMessage2 (hdr ++ msg) block s;
      let vector_ := vector s in
      Ret vector_ (set_vector (vector s + 1) s)
  end.

(** ** Layer 3: receiving *)

(** [getVectorMessage3(data)] *)
Definition getVectorMessage3 (data : option bytes) (s : SocketBase) : outcome (option vmsg) :=
  do msg, s <- getMessage2 data s;
  match msg with
  | None => Ret None s
  | Some msg =>
      match struct_unpack_from_QQ msg with
      | None => Raise StructError s
      | Some (vector_, rvector) => Ret (Some (vector_, rvector, drop hdrsz_QQ msg)) s
      end
  end.

Fixpoint getAllVectorMessages3_loop (n : nat) (data : option bytes) (s : SocketBase)
  : outcome (list vmsg) :=
  match n with
  | O => Ret [] s
  | S n' =>
      do msg, s <- getVectorMessage3 data s;
      match msg with
      | None => Ret [] s
      | Some m =>
          do msgs, s <- getAllVectorMessages3_loop n' None s;
          Ret (m :: msgs) s
      end
  end.

(** [getAllVectorMessages3(data)] *)
Definition getAllVectorMessages3 (data : option bytes) (s : SocketBase) : outcome (list vmsg) :=
  getAllVectorMessages3_loop (drain_bound data s) data s.

(** ** Layer 4 *)

Module IOMode.
Definition Block : Z := 0.
Definition Async : Z := 1.
Definition Callback : Z := 2.
Definition Discard : Z := 3.
End IOMode.

(** [rv == rvector], where [rvector] may be [None]. *)
Definition rv_matches (rv : Z) (rvector : option Z) : bool :=
  match rvector with
  | Some r => rv =? r
  | None => false
  end.

(** The body of [for msg in self.getAllVectorMessages3(data)], on the
    endpoint and the local [ret]. *)
Definition dispatch_msg (rvector : option Z) (acc : SocketBase * option vmsg) (m : vmsg)
  : SocketBase * option vmsg :=
  let '(s, ret) := acc in
  let '(v, rv, msg) := m in
  if rv_matches rv rvector then (s, Some (v, rv, msg))
  else if bool_decide (is_Some (keepresult s !! rv)) then
    (set_keepresult (<[rv := Some (v, rv, msg)]> (keepresult s)) s, ret)
  else
    match callback s !! rv with
    | Some cb =>
        let s := set_callback (delete rv (callback s)) s in
        (log (EvInvoke cb v rv msg) s, ret)
    | None => (s, ret)
    end.

(** The whole [for] loop, started with [ret = None]. *)
Definition dispatch (rvector : option Z) (msgs : list vmsg) (s : SocketBase)
  : SocketBase * option vmsg :=
  fold_left (dispatch_msg rvector) msgs (s, None).

(** What one [select] reports, and what [recv] then gives: [None] when it
    raises. *)
Record cycle := mk_cycle {
  sel_r : bool;
  sel_w : bool;
  sel_e : bool;
  recv : option bytes
}.

(** Nothing is ready. *)
Definition idle : cycle := mk_cycle false false false None.

(** One round of the [while True] loop of [handleVectorMessages4], up to
    the end of the [for] loop; the result is [ret]. *)
Definition service (rvector : option Z) (c : cycle) (s : SocketBase) : outcome (option vmsg) :=
  (* write readiness is only asked for when there is queued output *)
  let w := sel_w c && (0 <? getOutBufferSize1 s) in
  if sel_e c then Raise ConnectionLostException s
  else
    (* an empty read raises inside the [try], and the bare [except]
       swallows it *)
    let data :=
      if sel_r c then
        match recv c with
        | Some d => if (length d =? 0)%nat then None else Some d
        | None => None
        end
      else None in
    let s := if w then send1 None false s else s in
    do msgs, s <- getAllVectorMessages3 data s;
    let '(s, ret) := dispatch rvector msgs s in
    Ret ret s.

(** The [while True] loop.  Each round takes one report from [world]; when
    none is left nothing becomes ready any more, so a blocking [select]
    never returns and a polling one reports nothing. *)
Fixpoint handle_loop (rvector : option Z) (block : bool) (world : list cycle)
  (s : SocketBase) : outcome (option vmsg) :=
  match world with
  | [] => if block then Hang s else service rvector idle s
  | c :: world' =>
      do ret, s <- service rvector c s;
      match ret with
      | Some r => Ret (Some r) s
      | None => if block then handle_loop rvector block world' s else Ret None s
      end
  end.

(** [handleVectorMessages4(rvector, block)] *)
Definition handleVectorMessages4 (rvector : option Z) (block : bool) (world : list cycle)
  (s : SocketBase) : outcome (option vmsg) :=
  let stored :=
    match rvector with
    | Some r => match keepresult s !! r with
                | Some (Some ret) => Some (r, ret)
                | _ => None
                end
    | None => None
    end in
  match stored with
  | Some (r, ret) => Ret (Some ret) (set_keepresult (delete r (keepresult s)) s)
  | None => handle_loop rvector block world s
  end.

(** What [sendVectorMessageWithMode4] hands back: the vector that
    [sendVectorMessage3] returned, or whatever [handleVectorMessages4]
    returned. *)
Inductive mode4_result :=
| Vector (v : Z)
| Reply (r : option vmsg).

(** [sendVectorMessageWithMode4(msg, rvector, mode, callback)]; [world] is
    what the socket does while a Block-mode call waits. *)
Definition sendVectorMessageWithMode4 (msg : bytes) (rvector : Z) (mode : Z)
  (cb : option cb_record) (world : list cycle) (s : SocketBase) : outcome mode4_result :=
  let vector_ := vector s in
  if mode =? IOMode.Async then
    let s := log (EvKeep vector_) (set_keepresult (<[vector_ := None]> (keepresult s)) s) in
    do v, s <- sendVectorMessage3 msg rvector true s;
    Ret (Vector v) s
  else if mode =? IOMode.Callback then
    match cb with
    | None => Raise CallbackMissing s
    | Some cb =>
        let s := log (EvCallback vector_ cb)
                     (set_callback (<[vector_ := cb]> (callback s)) s) in
        do v, s <- sendVectorMessage3 msg rvector true s;
        Ret (Vector v) s
    end
  else if mode =? IOMode.Discard then
    do v, s <- sendVectorMessage3 msg rvector true s;
    Ret (Vector v) s
  else if negb (mode =? IOMode.Block) then Raise (UnknownMode mode) s
  else
    let s := log (EvKeep vector_) (set_keepresult (<[vector_ := None]> (keepresult s)) s) in
    do _, s <- sendVectorMessage3 msg rvector false s;
    do r, s <- handleVectorMessages4 (Some vector_) true world s;
    Ret (Reply r) s.

(** ** Notions used in the statements *)

(** Between calls the position of [inbuf] is at its end... *)
Definition tidy (s : SocketBase) : Prop :=
  BytesIO.pos (inbuf s) = length (BytesIO.content (inbuf s)).

(** ...and a length that has been read is the one at the front of [inbuf]. *)
Definition coherent (s : SocketBase) : Prop :=
  inbuf_cursz s = None \/
  ((4 < length (BytesIO.content (inbuf s)))%nat /\
   inbuf_cursz s = Some (be_decode (take 4 (BytesIO.content (inbuf s))))).

(** The endpoint with [buf] as its receive buffer and [c] as the pending
    length. *)
Definition with_inbuf (buf : bytes) (c : option Z) (s : SocketBase) : SocketBase :=
  set_inbuf_cursz c (set_inbuf (BytesIO.mk buf (length buf)) s).

(** What [getMessage2] does to the buffer: cut the first message off, when
    more than four bytes are there and the message is complete. *)
Definition cut (buf : bytes) : option (bytes * bytes) :=
  if (4 <? length buf)%nat then
    let sz := be_decode (take 4 buf) in
    if sz <=? blen buf - 4
    then Some (take (Z.to_nat sz) (drop 4 buf), drop (4 + Z.to_nat sz) buf)
    else None
  else None.

(** The pending length once [getMessage2] has found no message in [buf]. *)
Definition pending (buf : bytes) : option Z :=
  if (4 <? length buf)%nat then Some (be_decode (take 4 buf)) else None.

(** Everything of the endpoint that the receive side leaves alone. *)
Definition outside_inbuf (s : SocketBase) :=
  (oubuf s, oubufsz s, vector s, keepresult s, callback s, slow s, slowsz s,
   wallclock s, history s).

(** The bytes of one vector message on the wire:
    [be32(16 + len(p)) || be64(v) || be64(rv) || p]. *)
Definition wire_format (v rv : Z) (p : bytes) : bytes :=
  be_encode 4 (16 + blen p) ++ be_encode 8 v ++ be_encode 8 rv ++ p.

(** The vector carried by a frame. *)
Definition frame_vector (data : bytes) : Z := be_decode (take 8 (drop 4 data)).

(** The data handed to the outbound path, in order. *)
Definition wire_of (h : list event) : list bytes :=
  omap (fun e => match e with EvWire d => Some d | _ => None end) h.

(** What a call that took the endpoint from [s] to [s'] has handed to the
    outbound path. *)
Definition emitted (s s' : SocketBase) : list bytes :=
  wire_of (drop (length (history s)) (history s')).

(** A vector as the result of [sendVectorMessageWithMode4]. *)
Definition as_vector (m : outcome Z) : outcome mode4_result :=
  do v, s <- m; Ret (Vector v) s.

(** The two ways of sending a vector message. *)
Inductive send_call :=
| Send3 (msg : bytes) (rvector : Z) (block : bool)
| SendMode4 (msg : bytes) (rvector : Z) (mode : Z) (cb : option cb_record)
    (world : list cycle).

Definition run_send (c : send_call) (s : SocketBase) : outcome mode4_result :=
  match c with
  | Send3 msg rvector block => as_vector (sendVectorMessage3 msg rvector block s)
  | SendMode4 msg rvector mode cb world =>
      sendVectorMessageWithMode4 msg rvector mode cb world s
  end.

(** Anything that can happen to an endpoint between two observations: a
    method call, a round of the latency thread, or time passing. *)
Inductive op :=
| OpSend1 (data : option bytes) (block : bool)
| OpSendMessage2 (msg : bytes) (block : bool)
| OpSend (c : send_call)
| OpGetMessage2 (data : option bytes)
| OpGetAllMessages2 (data : option bytes)
| OpGetVectorMessage3 (data : option bytes)
| OpGetAllVectorMessages3 (data : option bytes)
| OpHandleVectorMessages4 (rvector : option Z) (block : bool) (world : list cycle)
| OpLatencyRound (answers : list send_answer)
| OpClock (now : Q).

(** The endpoint after [o], however the call ended. *)
Definition run_op (o : op) (s : SocketBase) : SocketBase :=
  match o with
  | OpSend1 data block => send1 data block s
  | OpSendMessage2 msg block => state_of (sendMessage2 msg block s)
  | OpSend c => state_of (run_send c s)
  | OpGetMessage2 data => state_of (getMessage2 data s)
  | OpGetAllMessages2 data => state_of (getAllMessages2 data s)
  | OpGetVectorMessage3 data => state_of (getVectorMessage3 data s)
  | OpGetAllVectorMessages3 data => state_of (getAllVectorMessages3 data s)
  | OpHandleVectorMessages4 rvector block world =>
      state_of (handleVectorMessages4 rvector block world s)
  | OpLatencyRound answers => __latencySimThread answers s
  | OpClock now => set_wallclock now s
  end.

Definition run_ops (ops : list op) (s : SocketBase) : SocketBase :=
  fold_left (fun s o => run_op o s) ops s.

(** The sum of the lengths of the chunks of a queue. *)
Definition total_len (q : list bytes) : Z :=
  fold_right (fun chunk n => blen chunk + n) 0 q.

(** ** Sample data *)

Definition payload_A : bytes := [byte_of_Z 65].
Definition payload_B : bytes := [byte_of_Z 66].

(** One readable socket delivering [data]. *)
Definition readable (data : bytes) : cycle := mk_cycle true false false (Some data).

(** Callback invocations are the only events the dispatcher adds. *)
Definition is_invoke (e : event) : bool :=
  match e with EvInvoke _ _ _ _ => true | _ => false end.

(** What servicing the socket while awaiting [rvector] may change, as far as
    the senders can tell: the counter stays, the history grows by callback
    invocations only, and the slot of the awaited vector stays as it is. *)
Definition serviced (rvector : option Z) (s s' : SocketBase) : Prop :=
  vector s' = vector s
  /\ (exists evs, history s' = history s ++ evs /\ forallb is_invoke evs = true)
  /\ (forall k, rvector = Some k -> keepresult s' !! k = keepresult s !! k).

(** The outbound queue and its size counter. *)
Definition queue (s : SocketBase) : list bytes * Z := (oubuf s, oubufsz s).

(** The size counter agrees with the queue. *)
Definition queue_ok (s : SocketBase) : Prop := oubufsz s = total_len (oubuf s).

(** One length-prefixed frame: [be32(len(payload)) || payload]. *)
Definition frame (payload : bytes) : bytes := be_encode 4 (blen payload) ++ payload.

(** Feeding successive chunks to [getAllMessages2], collecting what each
    call returns. *)
Fixpoint feed_all (chunks : list bytes) (s : SocketBase) : outcome (list bytes) :=
  match chunks with
  | [] => Ret [] s
  | chunk :: chunks' =>
      do msgs, s <- getAllMessages2 (Some chunk) s;
      do msgs', s <- feed_all chunks' s;
      Ret (msgs ++ msgs') s
  end.

(** [parses buf msgs rest]: cutting messages off the front of [buf] for as
    long as [cut] finds one gives [msgs] and leaves [rest]. *)
Inductive parses : bytes -> list bytes -> bytes -> Prop :=
| parses_stop buf : cut buf = None -> parses buf [] buf
| parses_cut buf m buf' msgs rest :
    cut buf = Some (m, buf') -> parses buf' msgs rest ->
    parses buf (m :: msgs) rest.

(** The receive side at rest: the buffer is tidy, holds no complete message
    that [getMessage2] would return, and the pending length is the one read
    from it. *)
Definition settled (s : SocketBase) : Prop :=
  tidy s
  /\ inbuf_cursz s = pending (BytesIO.content (inbuf s))
  /\ cut (BytesIO.content (inbuf s)) = None.

(** ** The demo servers *)

(** [bytes(out)]: every item must be in [range(0, 256)]; [None] stands for
    [ValueError]. *)
Definition py_bytes (out : list Z) : option bytes :=
  if forallb (fun x => (0 <=? x) && (x <? 256)) out
  then Some (map byte_of_Z out) else None.

(** [ServerClient.doWork(data)]: [out.append(data[x] + 1)] for every index,
    then [bytes(out)]. *)
Definition doWork (data : bytes) : option bytes :=
  py_bytes (map (fun b => Z_of_byte b + 1) data).

(** The [for] loop of [ServerEntry] in [tcss.py] and [accss.py]: work on each
    message and send the result back in reply to its vector.  [inr] stands
    for the [ValueError] of [doWork]. *)
Fixpoint reply_all3 (msgs : list vmsg) (s : SocketBase) : outcome unit + SocketBase :=
  match msgs with
  | [] => inl (Ret tt s)
  | (v, rv, msg) :: msgs' =>
      match doWork msg with
      | None => inr s
      | Some out =>
          match sendVectorMessage3 out v true s with
          | Ret _ s => reply_all3 msgs' s
          | Raise e s => inl (Raise e s)
          | Hang s => inl (Hang s)
          end
      end
  end.

(** One round of the inner loop of [ServerEntry] in [tcss.py] and
    [accss.py], once [recv] has given [data]: [c.send1()], then the [for]
    loop over [c.getAllVectorMessages3(data)]. *)
Definition serve3 (data : bytes) (s : SocketBase) : outcome unit + SocketBase :=
  let s := send1 None false s in
  match getAllVectorMessages3 (Some data) s with
  | Ret msgs s => reply_all3 msgs s
  | Raise e s => inl (Raise e s)
  | Hang s => inl (Hang s)
  end.

(** The same for [scss.py], on layer 2. *)
Fixpoint reply_all2 (msgs : list bytes) (s : SocketBase) : outcome unit + SocketBase :=
  match msgs with
  | [] => inl (Ret tt s)
  | msg :: msgs' =>
      match doWork msg with
      | None => inr s
      | Some out =>
          match sendMessage2 out true s with
          | Ret _ s => reply_all2 msgs' s
          | Raise e s => inl (Raise e s)
          | Hang s => inl (Hang s)
          end
      end
  end.

Definition serve2 (data : bytes) (s : SocketBase) : outcome unit + SocketBase :=
  let s := send1 None false s in
  match getAllMessages2 (Some data) s with
  | Ret msgs s => reply_all2 msgs s
  | Raise e s => inl (Raise e s)
  | Hang s => inl (Hang s)
  end.

(** ** Further notions used in the statements *)

(** Feeding successive chunks to [getAllVectorMessages3]. *)
Fixpoint feed_all_vectors (chunks : list bytes) (s : SocketBase) : outcome (list vmsg) :=
  match chunks with
  | [] => Ret [] s
  | chunk :: chunks' =>
      do msgs, s <- getAllVectorMessages3 (Some chunk) s;
      do msgs', s <- feed_all_vectors chunks' s;
      Ret (msgs ++ msgs') s
  end.

(** The bytes of a vector message on the wire. *)
Definition wire (m : vmsg) : bytes :=
  wire_format (vm_vector m) (vm_rvector m) (vm_payload m).

(** A vector message that can be put on the wire. *)
Definition sendable (m : vmsg) : Prop :=
  0 <= vm_vector m < 2 ^ 64 /\ 0 <= vm_rvector m < 2 ^ 64
  /\ 16 + blen (vm_payload m) < 2 ^ 32.

(** An operation of layer 3 or 4, or one that sends nothing. *)
Definition vector_op (o : op) : bool :=
  match o with
  | OpSend1 _ _ | OpSendMessage2 _ _ => false
  | _ => true
  end.

(** What [getVectorMessage3] makes of a layer-2 message of 16 bytes or
    more. *)
Definition split_vector (m : bytes) : vmsg :=
  (be_decode (take 8 m), be_decode (take 8 (drop 8 m)), drop hdrsz_QQ m).

(** The layer-2 message that carries a vector message. *)
Definition vector_payload (m : vmsg) : bytes :=
  be_encode 8 (vm_vector m) ++ be_encode 8 (vm_rvector m) ++ vm_payload m.

(** Going from [s] to [s'] no entry has appeared in either table, and no
    callback has been replaced. *)
Definition no_new_entries (s s' : SocketBase) : Prop :=
  (forall k, is_Some (keepresult s' !! k) -> is_Some (keepresult s !! k))
  /\ (forall k cb, callback s' !! k = Some cb -> callback s !! k = Some cb).

(** No reply to [rvector] is waiting in its slot. *)
Definition nothing_stored (rvector : option Z) (s : SocketBase) : Prop :=
  forall r m, rvector = Some r -> keepresult s !! r <> Some (Some m).

(** The vectors of the frames handed to the outbound path so far, in
    order. *)
Definition sent_vectors (s : SocketBase) : list Z :=
  map frame_vector (wire_of (history s)).

(** What an operation adds to the history, as far as frames go: nothing, or
    one frame with the counter's value, the counter then going up by one. *)
Definition step_ok (s s' : SocketBase) : Prop :=
  exists evs,
    history s' = history s ++ evs
    /\ ((map frame_vector (wire_of evs) = [] /\ vector s' = vector s)
        \/ (map frame_vector (wire_of evs) = [vector s] /\ vector s' = vector s + 1
            /\ 0 <= vector s)).

(** Every byte plus one. *)
Definition worked (p : bytes) : bytes := map (fun b => byte_of_Z (Z_of_byte b + 1)) p.

(** The replies of the layer-3 server to [reqs], the first one sent with
    vector [v]. *)
Fixpoint replies_from (v : Z) (reqs : list vmsg) : list bytes :=
  match reqs with
  | [] => []
  | m :: reqs' =>
      wire_format v (vm_vector m) (worked (vm_payload m)) :: replies_from (v + 1) reqs'
  end.

(** * Properties *)

(** ** The codec *)

Lemma Z_of_byte_range (b : Byte.byte) : 0 <= Z_of_byte b < 256.
Proof.
  unfold Z_of_byte. pose proof (Byte.to_N_bounded b) as H. lia.
Qed.

Lemma Z_of_byte_of_Z (z : Z) : Z_of_byte (byte_of_Z z) = z mod 256.
Proof.
  unfold Z_of_byte, byte_of_Z.
  pose proof (Z.mod_pos_bound z 256 ltac:(lia)) as Hr.
  destruct (Byte.of_N (Z.to_N (z mod 256))) as [b|] eqn:E.
  - apply Byte.to_of_N in E. rewrite E. lia.
  - apply Byte.of_N_None_iff in E. lia.
Qed.

Lemma byte_of_Z_of_byte (b : Byte.byte) : byte_of_Z (Z_of_byte b) = b.
Proof.
  unfold byte_of_Z. pose proof (Z_of_byte_range b).
  rewrite Z.mod_small by lia. unfold Z_of_byte. rewrite N2Z.id.
  now rewrite Byte.of_to_N.
Qed.

Lemma be_encode_length (w : nat) (z : Z) : length (be_encode w z) = w.
Proof.
  revert z. induction w as [|w IH]; intros z; simpl; [reflexivity|].
  rewrite length_app, IH. simpl. lia.
Qed.

Lemma be_decode_snoc (bs : bytes) (b : Byte.byte) :
  be_decode (bs ++ [b]) = be_decode bs * 256 + Z_of_byte b.
Proof. unfold be_decode. now rewrite fold_left_app. Qed.

Lemma be_decode_encode (w : nat) (z : Z) :
  be_decode (be_encode w z) = z mod 256 ^ Z.of_nat w.
Proof.
  revert z. induction w as [|w IH]; intros z.
  - simpl. now rewrite Z.mod_1_r.
  - cbn [be_encode]. rewrite be_decode_snoc, IH, Z_of_byte_of_Z.
    rewrite Nat2Z.inj_succ, Z.pow_succ_r by lia.
    assert (0 < 256 ^ Z.of_nat w) by (apply Z.pow_pos_nonneg; lia).
    rewrite Z.rem_mul_r by lia. lia.
Qed.

Lemma be_decode_nonneg (bs : bytes) : 0 <= be_decode bs.
Proof.
  induction bs as [|b bs IH] using rev_ind.
  - reflexivity.
  - rewrite be_decode_snoc. pose proof (Z_of_byte_range b). lia.
Qed.

Lemma be_decode_encode_small (w : nat) (z : Z) :
  0 <= z < 256 ^ Z.of_nat w -> be_decode (be_encode w z) = z.
Proof. intros H. rewrite be_decode_encode. now apply Z.mod_small. Qed.

Lemma struct_pack_I_Some (n : Z) :
  0 <= n < 2 ^ 32 -> struct_pack_I n = Some (be_encode 4 n).
Proof.
  intros H. unfold struct_pack_I.
  destruct (Z.leb_spec 0 n), (Z.ltb_spec n (2 ^ 32)); simpl; try lia. reflexivity.
Qed.

Lemma struct_pack_I_inv (n : Z) (bs : bytes) :
  struct_pack_I n = Some bs -> 0 <= n < 2 ^ 32 /\ bs = be_encode 4 n.
Proof.
  unfold struct_pack_I.
  destruct (Z.leb_spec 0 n), (Z.ltb_spec n (2 ^ 32)); simpl; intros [= <-]; auto.
Qed.

Lemma struct_pack_QQ_Some (a b : Z) :
  0 <= a < 2 ^ 64 -> 0 <= b < 2 ^ 64 ->
  struct_pack_QQ a b = Some (be_encode 8 a ++ be_encode 8 b).
Proof.
  intros Ha Hb. unfold struct_pack_QQ.
  destruct (Z.leb_spec 0 a), (Z.ltb_spec a (2 ^ 64)),
    (Z.leb_spec 0 b), (Z.ltb_spec b (2 ^ 64)); simpl; try lia. reflexivity.
Qed.

Lemma struct_pack_QQ_inv (a b : Z) (bs : bytes) :
  struct_pack_QQ a b = Some bs ->
  0 <= a < 2 ^ 64 /\ 0 <= b < 2 ^ 64 /\ bs = be_encode 8 a ++ be_encode 8 b.
Proof.
  unfold struct_pack_QQ.
  destruct (Z.leb_spec 0 a), (Z.ltb_spec a (2 ^ 64)),
    (Z.leb_spec 0 b), (Z.ltb_spec b (2 ^ 64)); simpl; intros [= <-]; auto.
Qed.

(** [unpack_from('>QQ')] undoes [pack('>QQ')], whatever follows the header. *)
Lemma struct_unpack_pack_QQ (a b : Z) (rest : bytes) :
  0 <= a < 2 ^ 64 -> 0 <= b < 2 ^ 64 ->
  struct_unpack_from_QQ (be_encode 8 a ++ be_encode 8 b ++ rest) = Some (a, b).
Proof.
  intros Ha Hb. unfold struct_unpack_from_QQ.
  assert (La : length (be_encode 8 a) = 8%nat) by apply be_encode_length.
  assert (Lb : length (be_encode 8 b) = 8%nat) by apply be_encode_length.
  destruct (Nat.leb_spec 16 (length (be_encode 8 a ++ be_encode 8 b ++ rest))) as [_|Hlt].
  - rewrite take_app_length' by exact La.
    rewrite drop_app_length' by exact La.
    rewrite take_app_length' by exact Lb.
    rewrite !be_decode_encode_small; [reflexivity | exact Hb | exact Ha].
  - rewrite !length_app in Hlt. lia.
Qed.

(** ** The receive buffer *)

Lemma BytesIO_write_end (d : bytes) (b : BytesIO.t) :
  BytesIO.pos b = length (BytesIO.content b) ->
  BytesIO.write d b =
  BytesIO.mk (BytesIO.content b ++ d) (length (BytesIO.content b ++ d)).
Proof.
  intros H. unfold BytesIO.write. rewrite H, Nat.sub_diag. simpl.
  rewrite app_nil_r, take_ge, drop_ge by lia.
  now rewrite app_nil_r, length_app.
Qed.

Lemma BytesIO_write_empty (d : bytes) :
  BytesIO.write d BytesIO.empty = BytesIO.mk d (length d).
Proof. now rewrite BytesIO_write_end. Qed.

Lemma with_inbuf_tidy buf c s : tidy (with_inbuf buf c s).
Proof. reflexivity. Qed.

Lemma cut_length buf m rest :
  cut buf = Some (m, rest) -> (length rest + 4 <= length buf)%nat.
Proof.
  unfold cut, blen. destruct (Nat.ltb_spec 4 (length buf)); [|discriminate].
  destruct (Z.leb_spec (be_decode (take 4 buf)) (Z.of_nat (length buf) - 4));
    [|discriminate].
  intros [= <- <-]. rewrite length_drop. lia.
Qed.

Lemma take_payload_cut (sz : Z) (buf : bytes) (c : option Z) (s : SocketBase) :
  0 <= sz ->
  take_payload sz (with_inbuf buf c s) =
  if sz <=? blen buf - 4
  then Ret (Some (take (Z.to_nat sz) (drop 4 buf)))
           (with_inbuf (drop (4 + Z.to_nat sz) buf) None s)
  else Ret None (with_inbuf buf c s).
Proof.
  intros Hsz. unfold take_payload, blen.
  change (Z.of_nat hdrsz_I) with 4.
  change (BytesIO.tell (inbuf (with_inbuf buf c s))) with (length buf).
  destruct (Z.leb_spec sz (Z.of_nat (length buf) - 4)) as [Hle|Hgt].
  - replace (Z.of_nat (length buf) - 4 >=? sz) with true
      by (symmetry; apply Z.geb_le; lia).
    unfold BytesIO.read_all, BytesIO.read, BytesIO.seek, hdrsz_I.
    cbn [BytesIO.pos BytesIO.content inbuf with_inbuf set_inbuf set_inbuf_cursz].
    destruct (Z.ltb_spec sz 0); [lia|].
    change (-1 <? 0) with true. cbv iota.
    rewrite BytesIO_write_empty, length_take, length_drop.
    rewrite Nat.min_l by lia.
    destruct s; reflexivity.
  - destruct (Z.of_nat (length buf) - 4 >=? sz) eqn:E; [|reflexivity].
    apply Z.geb_le in E. lia.
Qed.

Lemma tidy_with_inbuf (s : SocketBase) :
  tidy s -> s = with_inbuf (BytesIO.content (inbuf s)) (inbuf_cursz s) s.
Proof.
  unfold tidy. destruct s as [[content pos] cursz ? ? ? ? ? ? ? ? ?]. simpl.
  intros ->. reflexivity.
Qed.

Lemma with_inbuf_idem buf c buf' c' s :
  with_inbuf buf c (with_inbuf buf' c' s) = with_inbuf buf c s.
Proof. reflexivity. Qed.

(** Appending [data] to a tidy buffer. *)
Lemma feed_tidy (data : option bytes) (s : SocketBase) :
  tidy s ->
  match data with
  | Some d => set_inbuf (BytesIO.write d (inbuf s)) s
  | None => s
  end = with_inbuf (BytesIO.content (inbuf s) ++ default [] data) (inbuf_cursz s) s.
Proof.
  intros Ht. destruct data as [d|]; simpl.
  - rewrite BytesIO_write_end by exact Ht. destruct s; reflexivity.
  - rewrite app_nil_r. now apply tidy_with_inbuf.
Qed.

(** [getMessage2] on a tidy, coherent endpoint, in terms of [cut]. *)
Lemma getMessage2_cut (data : option bytes) (s : SocketBase) :
  tidy s -> coherent s ->
  let buf := BytesIO.content (inbuf s) ++ default [] data in
  getMessage2 data s =
  match cut buf with
  | Some (m, rest) => Ret (Some m) (with_inbuf rest None s)
  | None => Ret None (with_inbuf buf (pending buf) s)
  end.
Proof.
  intros Ht Hc buf. unfold getMessage2.
  rewrite (feed_tidy data s Ht). fold buf.
  change (inbuf_cursz (with_inbuf buf (inbuf_cursz s) s)) with (inbuf_cursz s).
  unfold cut, pending.
  destruct Hc as [Hc | [Hlen Hc]]; rewrite Hc.
  - change (BytesIO.tell (inbuf (with_inbuf buf None s))) with (length buf).
    unfold hdrsz_I.
    destruct (Nat.ltb_spec 4 (length buf)) as [Hlt|Hge]; [|reflexivity].
    unfold BytesIO.read, BytesIO.seek.
    cbn [BytesIO.pos BytesIO.content inbuf with_inbuf set_inbuf set_inbuf_cursz].
    change (Z.of_nat 4 <? 0) with false. cbv iota.
    rewrite drop_0. change (Z.to_nat (Z.of_nat 4)) with 4%nat.
    unfold struct_unpack_I. rewrite length_take, Nat.min_l by lia.
    cbn [Nat.eqb].
    assert (E : set_inbuf_cursz (Some (be_decode (take 4 buf)))
        (set_inbuf (BytesIO.seek_end (BytesIO.mk buf (0 + 4)))
           (with_inbuf buf None s))
        = with_inbuf buf (Some (be_decode (take 4 buf))) s)
      by (destruct s; reflexivity).
    rewrite E, take_payload_cut by apply be_decode_nonneg.
    destruct (be_decode (take 4 buf) <=? blen buf - 4); reflexivity.
  - assert (Hb : (4 < length buf)%nat) by (subst buf; rewrite length_app; lia).
    assert (Hh : take 4 buf = take 4 (BytesIO.content (inbuf s)))
      by (subst buf; rewrite take_app_le by lia; reflexivity).
    destruct (Nat.ltb_spec 4 (length buf)) as [_|]; [|lia].
    rewrite take_payload_cut by apply be_decode_nonneg.
    rewrite Hh.
    destruct (be_decode (take 4 (BytesIO.content (inbuf s))) <=? blen buf - 4);
      reflexivity.
Qed.

Lemma take_payload_outside (c : Z) (s : SocketBase) :
  outside_inbuf (state_of (take_payload c s)) = outside_inbuf s.
Proof.
  unfold take_payload.
  destruct (_ >=? _); [|reflexivity].
  destruct (BytesIO.read c _) as [rdata b].
  destruct (BytesIO.read_all b) as [rest b']. reflexivity.
Qed.

Lemma getMessage2_outside (data : option bytes) (s : SocketBase) :
  outside_inbuf (state_of (getMessage2 data s)) = outside_inbuf s.
Proof.
  unfold getMessage2.
  set (s1 := match data with Some d => _ | None => s end).
  assert (H1 : outside_inbuf s1 = outside_inbuf s) by (subst s1; now destruct data).
  destruct (inbuf_cursz s1) as [c|].
  - now rewrite take_payload_outside.
  - destruct (_ <? _)%nat; [|exact H1].
    destruct (BytesIO.read _ _) as [hdr b].
    destruct (struct_unpack_I hdr) as [sz|]; [|exact H1].
    rewrite take_payload_outside. exact H1.
Qed.

(** Whenever [getMessage2] returns a message it leaves a fresh buffer behind,
    no longer than what was there. *)
Lemma take_payload_Some (c : Z) (s s' : SocketBase) (m : bytes) :
  take_payload c s = Ret (Some m) s' ->
  tidy s' /\ inbuf_cursz s' = None /\
  (length (BytesIO.content (inbuf s')) <= length (BytesIO.content (inbuf s)))%nat.
Proof.
  unfold take_payload.
  destruct (_ >=? _); [|discriminate].
  destruct (BytesIO.read c _) as [rdata b] eqn:E1.
  destruct (BytesIO.read_all b) as [rest b'] eqn:E2.
  intros [= _ <-]. rewrite BytesIO_write_empty.
  repeat split. cbn.
  unfold BytesIO.read_all, BytesIO.read in E1, E2.
  injection E2 as <- _. injection E1 as _ <-. cbn.
  rewrite length_drop. lia.
Qed.

Lemma BytesIO_write_length (d : bytes) (b : BytesIO.t) :
  (length (BytesIO.content (BytesIO.write d b))
   <= length (BytesIO.content b) + BytesIO.pos b + length d)%nat.
Proof.
  unfold BytesIO.write. cbn.
  rewrite !length_app, length_take, length_drop, length_app, repeat_length. lia.
Qed.

Lemma getMessage2_Some (data : option bytes) (s s' : SocketBase) (m : bytes) :
  getMessage2 data s = Ret (Some m) s' ->
  tidy s' /\ inbuf_cursz s' = None /\
  (S (S (length (BytesIO.content (inbuf s')))) <= drain_bound data s)%nat.
Proof.
  unfold getMessage2, drain_bound.
  set (s1 := match data with Some d => _ | None => s end).
  assert (H1 : (length (BytesIO.content (inbuf s1))
                <= length (BytesIO.content (inbuf s)) + BytesIO.pos (inbuf s)
                   + match data with Some d => length d | None => 0 end)%nat).
  { subst s1. destruct data as [d|]; [apply BytesIO_write_length | lia]. }
  destruct (inbuf_cursz s1) as [c|].
  - intros H. apply take_payload_Some in H. intuition lia.
  - destruct (_ <? _)%nat; [|discriminate].
    destruct (BytesIO.read _ _) as [hdr b] eqn:E.
    destruct (struct_unpack_I hdr) as [sz|]; [|discriminate].
    intros H. apply take_payload_Some in H.
    unfold BytesIO.read in E. injection E as _ <-.
    cbn in H. intuition lia.
Qed.

Lemma coherent_fresh buf s : coherent (with_inbuf buf None s).
Proof. now left. Qed.

Lemma coherent_pending buf s : coherent (with_inbuf buf (pending buf) s).
Proof.
  unfold coherent, pending.
  change (BytesIO.content (inbuf (with_inbuf buf (pending buf) s))) with buf.
  change (inbuf_cursz (with_inbuf buf (pending buf) s)) with (pending buf).
  unfold pending.
  destruct (Nat.ltb_spec 4 (length buf)); [right | left]; auto.
Qed.

(** Any bound above the length of the buffer gives the same drain. *)
Lemma getAllMessages2_loop_enough (n n' : nat) (s : SocketBase) :
  tidy s -> coherent s ->
  (length (BytesIO.content (inbuf s)) < n)%nat ->
  (length (BytesIO.content (inbuf s)) < n')%nat ->
  getAllMessages2_loop n None s = getAllMessages2_loop n' None s.
Proof.
  revert n' s. induction n as [|n IH]; intros n' s Ht Hc Hn Hn'; [lia|].
  destruct n' as [|n']; [lia|].
  cbn [getAllMessages2_loop]. rewrite getMessage2_cut by assumption.
  cbn [default]. rewrite app_nil_r.
  destruct (cut _) as [[m rest]|] eqn:E; [|reflexivity].
  apply cut_length in E. cbn [bind].
  rewrite (IH n' (with_inbuf rest None s)); auto using coherent_fresh.
  - apply with_inbuf_tidy.
  - cbn. lia.
  - cbn. lia.
Qed.

(** The loop of [getAllMessages2] as the source has it: the bound put on the
    number of rounds is never what ends it. *)
Lemma getAllMessages2_unfold (data : option bytes) (s : SocketBase) :
  getAllMessages2 data s =
  do msg, s <- getMessage2 data s;
  match msg with
  | None => Ret [] s
  | Some m => do msgs, s <- getAllMessages2 None s; Ret (m :: msgs) s
  end.
Proof.
  unfold getAllMessages2 at 1.
  destruct (drain_bound data s) as [|n] eqn:En; [discriminate|].
  cbn [getAllMessages2_loop].
  destruct (getMessage2 data s) as [[m|] s1| |] eqn:E; try reflexivity.
  apply getMessage2_Some in E as (Ht & Hc & Hlen).
  cbn [bind]. unfold getAllMessages2.
  rewrite (getAllMessages2_loop_enough n (drain_bound None s1) s1); auto.
  - now left.
  - lia.
  - unfold drain_bound. lia.
Qed.

Lemma getVectorMessage3_outside (data : option bytes) (s : SocketBase) :
  outside_inbuf (state_of (getVectorMessage3 data s)) = outside_inbuf s.
Proof.
  unfold getVectorMessage3.
  pose proof (getMessage2_outside data s) as H.
  destruct (getMessage2 data s) as [[m|] s1| |]; cbn [bind]; try exact H.
  destruct (struct_unpack_from_QQ m) as [[v rv]|]; exact H.
Qed.

Lemma getVectorMessage3_Some (data : option bytes) (s s' : SocketBase) (m : vmsg) :
  getVectorMessage3 data s = Ret (Some m) s' ->
  tidy s' /\ inbuf_cursz s' = None /\
  (S (S (length (BytesIO.content (inbuf s')))) <= drain_bound data s)%nat.
Proof.
  unfold getVectorMessage3.
  destruct (getMessage2 data s) as [[msg|] s1| |] eqn:E; cbn [bind]; try discriminate.
  destruct (struct_unpack_from_QQ msg) as [[v rv]|]; [|discriminate].
  intros [= _ <-]. eapply getMessage2_Some, E.
Qed.

Lemma getVectorMessage3_cut (data : option bytes) (s : SocketBase) :
  tidy s -> coherent s ->
  let buf := BytesIO.content (inbuf s) ++ default [] data in
  getVectorMessage3 data s =
  match cut buf with
  | Some (m, rest) =>
      match struct_unpack_from_QQ m with
      | Some (v, rv) => Ret (Some (v, rv, drop hdrsz_QQ m)) (with_inbuf rest None s)
      | None => Raise StructError (with_inbuf rest None s)
      end
  | None => Ret None (with_inbuf buf (pending buf) s)
  end.
Proof.
  intros Ht Hc buf. unfold getVectorMessage3.
  rewrite getMessage2_cut by assumption. fold buf.
  destruct (cut buf) as [[m rest]|]; cbn [bind]; [|reflexivity].
  destruct (struct_unpack_from_QQ m) as [[v rv]|]; reflexivity.
Qed.

Lemma getAllVectorMessages3_loop_enough (n n' : nat) (s : SocketBase) :
  tidy s -> coherent s ->
  (length (BytesIO.content (inbuf s)) < n)%nat ->
  (length (BytesIO.content (inbuf s)) < n')%nat ->
  getAllVectorMessages3_loop n None s = getAllVectorMessages3_loop n' None s.
Proof.
  revert n' s. induction n as [|n IH]; intros n' s Ht Hc Hn Hn'; [lia|].
  destruct n' as [|n']; [lia|].
  cbn [getAllVectorMessages3_loop]. rewrite getVectorMessage3_cut by assumption.
  cbn [default]. rewrite app_nil_r.
  destruct (cut _) as [[m rest]|] eqn:E; [|reflexivity].
  apply cut_length in E.
  destruct (struct_unpack_from_QQ m) as [[v rv]|]; [|reflexivity].
  cbn [bind].
  rewrite (IH n' (with_inbuf rest None s)); auto using coherent_fresh.
  - apply with_inbuf_tidy.
  - cbn. lia.
  - cbn. lia.
Qed.

(** The loop of [getAllVectorMessages3] as the source has it. *)
Lemma getAllVectorMessages3_unfold (data : option bytes) (s : SocketBase) :
  getAllVectorMessages3 data s =
  do msg, s <- getVectorMessage3 data s;
  match msg with
  | None => Ret [] s
  | Some m => do msgs, s <- getAllVectorMessages3 None s; Ret (m :: msgs) s
  end.
Proof.
  unfold getAllVectorMessages3 at 1.
  destruct (drain_bound data s) as [|n] eqn:En; [discriminate|].
  cbn [getAllVectorMessages3_loop].
  destruct (getVectorMessage3 data s) as [[m|] s1| |] eqn:E; try reflexivity.
  apply getVectorMessage3_Some in E as (Ht & Hc & Hlen).
  cbn [bind]. unfold getAllVectorMessages3.
  rewrite (getAllVectorMessages3_loop_enough n (drain_bound None s1) s1); auto.
  - now left.
  - lia.
  - unfold drain_bound. lia.
Qed.

Lemma getAllVectorMessages3_loop_outside (n : nat) (data : option bytes) (s : SocketBase) :
  outside_inbuf (state_of (getAllVectorMessages3_loop n data s)) = outside_inbuf s.
Proof.
  revert data s. induction n as [|n IH]; intros data s; [reflexivity|].
  cbn [getAllVectorMessages3_loop].
  pose proof (getVectorMessage3_outside data s) as H.
  destruct (getVectorMessage3 data s) as [[m|] s1| |]; cbn [bind]; try exact H.
  specialize (IH None s1).
  destruct (getAllVectorMessages3_loop n None s1); cbn [bind state_of] in *; congruence.
Qed.

Lemma getAllVectorMessages3_outside (data : option bytes) (s : SocketBase) :
  outside_inbuf (state_of (getAllVectorMessages3 data s)) = outside_inbuf s.
Proof. apply getAllVectorMessages3_loop_outside. Qed.

Lemma getAllMessages2_loop_outside (n : nat) (data : option bytes) (s : SocketBase) :
  outside_inbuf (state_of (getAllMessages2_loop n data s)) = outside_inbuf s.
Proof.
  revert data s. induction n as [|n IH]; intros data s; [reflexivity|].
  cbn [getAllMessages2_loop].
  pose proof (getMessage2_outside data s) as H.
  destruct (getMessage2 data s) as [[m|] s1| |]; cbn [bind]; try exact H.
  specialize (IH None s1).
  destruct (getAllMessages2_loop n None s1); cbn [bind state_of] in *; congruence.
Qed.

Lemma getAllMessages2_outside (data : option bytes) (s : SocketBase) :
  outside_inbuf (state_of (getAllMessages2 data s)) = outside_inbuf s.
Proof. apply getAllMessages2_loop_outside. Qed.

(** ** The dispatcher *)

Lemma dispatch_app (rvector : option Z) (l l' : list vmsg) (s : SocketBase) :
  dispatch rvector (l ++ l') s =
  fold_left (dispatch_msg rvector) l' (dispatch rvector l s).
Proof. unfold dispatch. apply fold_left_app. Qed.

Lemma rv_matches_spec (rv : Z) (rvector : option Z) :
  reflect (rvector = Some rv) (rv_matches rv rvector).
Proof.
  unfold rv_matches. destruct rvector as [r|].
  - destruct (Z.eqb_spec rv r); constructor; congruence.
  - constructor. discriminate.
Qed.

(** The four ways of [dispatch_msg], told apart by the endpoint as the
    message finds it. *)
Lemma dispatch_msg_cases (rvector : option Z) (s : SocketBase) (ret : option vmsg)
  (m : vmsg) :
  let rv := vm_rvector m in
  (rvector = Some rv /\ dispatch_msg rvector (s, ret) m = (s, Some m))
  \/ (rvector <> Some rv /\ is_Some (keepresult s !! rv) /\
      dispatch_msg rvector (s, ret) m =
      (set_keepresult (<[rv := Some m]> (keepresult s)) s, ret))
  \/ (rvector <> Some rv /\ keepresult s !! rv = None /\
      exists cb, callback s !! rv = Some cb /\
      dispatch_msg rvector (s, ret) m =
      (log (EvInvoke cb (vm_vector m) rv (vm_payload m))
           (set_callback (delete rv (callback s)) s), ret))
  \/ (rvector <> Some rv /\ keepresult s !! rv = None /\ callback s !! rv = None /\
      dispatch_msg rvector (s, ret) m = (s, ret)).
Proof.
  destruct m as [[v rv] msg]. cbn [vm_rvector vm_vector vm_payload fst snd].
  unfold dispatch_msg.
  destruct (rv_matches_spec rv rvector) as [Hm|Hm]; [left; auto|].
  right. case_bool_decide as Hk; [left; auto|].
  right. apply eq_None_not_Some in Hk.
  destruct (callback s !! rv) as [cb|] eqn:Hcb; [left | right]; eauto.
Qed.

(** The value the loop ends with is the last message of the batch that
    answers [rvector]. *)
Lemma dispatch_ret_last (rvector : option Z) (msgs : list vmsg) (s : SocketBase)
  (ret : option vmsg) :
  snd (fold_left (dispatch_msg rvector) msgs (s, ret)) =
  match last (List.filter (fun m => rv_matches (vm_rvector m) rvector) msgs) with
  | Some m => Some m
  | None => ret
  end.
Proof.
  revert s ret. induction msgs as [|m msgs IH]; intros s ret; [reflexivity|].
  cbn [fold_left List.filter].
  destruct (dispatch_msg_cases rvector s ret m) as
    [(Hm & ->) | [(Hm & _ & ->) | [(Hm & _ & cb & _ & ->) | (Hm & _ & _ & ->)]]];
    rewrite IH; destruct (rv_matches_spec (vm_rvector m) rvector) as [Hy|Hn];
    try congruence; try reflexivity.
  rewrite last_cons. now destruct (last _).
Qed.

(** C1, as amended.  Across one batch handed to the [for] loop of
    [handleVectorMessages4], every message takes exactly one of four ways,
    chosen by the endpoint as that message finds it: it becomes the pending
    return value if its [rv] equals the awaited vector; else it is stored in
    the slot if [keepresult] has an entry for [rv]; else it is passed to the
    callback registered for [rv], which is removed; else it is discarded and
    nothing changes.  The four guards exclude one another.  The caller gets
    the last message of the batch whose [rv] equals the awaited vector; an
    earlier one of the same batch is overwritten by it. *)
Theorem dispatch_one_destination (rvector : option Z) (pre post : list vmsg)
  (m : vmsg) (s : SocketBase) :
  let before := dispatch rvector pre s in
  let after := dispatch rvector (pre ++ [m]) s in
  let rv := vm_rvector m in
  dispatch rvector (pre ++ m :: post) s = fold_left (dispatch_msg rvector) post after
  /\ ((rvector = Some rv /\ after = (fst before, Some m))
      \/ (rvector <> Some rv /\ is_Some (keepresult (fst before) !! rv) /\
          after = (set_keepresult (<[rv := Some m]> (keepresult (fst before)))
                     (fst before), snd before))
      \/ (rvector <> Some rv /\ keepresult (fst before) !! rv = None /\
          exists cb, callback (fst before) !! rv = Some cb /\
          after = (log (EvInvoke cb (vm_vector m) rv (vm_payload m))
                     (set_callback (delete rv (callback (fst before))) (fst before)),
                   snd before))
      \/ (rvector <> Some rv /\ keepresult (fst before) !! rv = None /\
          callback (fst before) !! rv = None /\ after = before))
  /\ snd (dispatch rvector (pre ++ m :: post) s) =
     last (List.filter (fun m => rv_matches (vm_rvector m) rvector) (pre ++ m :: post)).
Proof.
  intros before after rv. split; [|split].
  - subst after. rewrite (dispatch_app rvector pre (m :: post)),
      (dispatch_app rvector pre [m]). reflexivity.
  - subst after before. rewrite dispatch_app. cbn [fold_left].
    destruct (dispatch rvector pre s) as [s1 ret1]. cbn [fst snd].
    apply dispatch_msg_cases.
  - unfold dispatch. rewrite dispatch_ret_last. now destruct (last _).
Qed.

(** C1, as stated, fails when one batch holds two messages that answer the
    awaited vector.  Both frames arrive in one read while vector 5 is
    awaited: the call returns the second message only, and the first is
    neither returned, nor stored, nor passed to a callback, nor left in the
    receive buffer. *)
Lemma two_replies_one_returned :
  let m1 : vmsg := (1, 5, payload_A) in
  let m2 : vmsg := (2, 5, payload_B) in
  let data := wire_format 1 5 payload_A ++ wire_format 2 5 payload_B in
  getAllVectorMessages3 (Some data) __init__ = Ret [m1; m2] __init__ /\
  rv_matches (vm_rvector m1) (Some 5) = true /\
  handleVectorMessages4 (Some 5) false [readable data] __init__ = Ret (Some m2) __init__ /\
  Some m2 <> Some m1.
Proof. vm_compute. repeat split. discriminate. Qed.

Lemma dispatch_ret_matches (rvector : option Z) (msgs : list vmsg) (s : SocketBase)
  (ret : option vmsg) (m : vmsg) :
  snd (fold_left (dispatch_msg rvector) msgs (s, ret)) = Some m ->
  ret = Some m \/ rvector = Some (vm_rvector m).
Proof.
  revert s ret. induction msgs as [|x msgs IH]; intros s ret; [now left|].
  cbn [fold_left].
  destruct (dispatch_msg_cases rvector s ret x) as
    [(Hm & ->) | [(Hm & _ & ->) | [(Hm & _ & cb & _ & ->) | (Hm & _ & _ & ->)]]];
    intros H; apply IH in H; auto.
  destruct H as [[= ->]|H]; auto.
Qed.

(** While vector [k] is awaited the dispatcher leaves the slot of [k] as it
    is; no slot is ever removed by it. *)
Lemma dispatch_awaited_slot (k : Z) (msgs : list vmsg) (s : SocketBase)
  (ret : option vmsg) :
  keepresult (fst (fold_left (dispatch_msg (Some k)) msgs (s, ret))) !! k
  = keepresult s !! k.
Proof.
  revert s ret. induction msgs as [|x msgs IH]; intros s ret; [reflexivity|].
  cbn [fold_left].
  destruct (dispatch_msg_cases (Some k) s ret x) as
    [(Hm & ->) | [(Hm & _ & ->) | [(Hm & _ & cb & _ & ->) | (Hm & _ & _ & ->)]]];
    rewrite IH; try reflexivity.
  cbn. apply lookup_insert_ne. congruence.
Qed.

Lemma dispatch_history (rvector : option Z) (msgs : list vmsg) (s : SocketBase)
  (ret : option vmsg) :
  exists evs,
    history (fst (fold_left (dispatch_msg rvector) msgs (s, ret))) = history s ++ evs
    /\ forallb is_invoke evs = true.
Proof.
  revert s ret. induction msgs as [|x msgs IH]; intros s ret.
  - exists []. now rewrite app_nil_r.
  - cbn [fold_left].
    destruct (dispatch_msg_cases rvector s ret x) as
      [(Hm & ->) | [(Hm & _ & ->) | [(Hm & _ & cb & _ & ->) | (Hm & _ & _ & ->)]]].
    + apply (IH s).
    + apply (IH (set_keepresult _ s)).
    + destruct (IH (log (EvInvoke cb (vm_vector x) (vm_rvector x) (vm_payload x))
                    (set_callback (delete (vm_rvector x) (callback s)) s)) ret)
        as (evs & -> & Hevs).
      exists (EvInvoke cb (vm_vector x) (vm_rvector x) (vm_payload x) :: evs).
      cbn. now rewrite <- app_assoc.
    + apply (IH s).
Qed.

Lemma dispatch_vector (rvector : option Z) (msgs : list vmsg) (s : SocketBase)
  (ret : option vmsg) :
  vector (fst (fold_left (dispatch_msg rvector) msgs (s, ret))) = vector s.
Proof.
  revert s ret. induction msgs as [|x msgs IH]; intros s ret; [reflexivity|].
  cbn [fold_left].
  destruct (dispatch_msg_cases rvector s ret x) as
    [(Hm & ->) | [(Hm & _ & ->) | [(Hm & _ & cb & _ & ->) | (Hm & _ & _ & ->)]]];
    now rewrite IH.
Qed.

(** What one round of the loop of [handleVectorMessages4] can do. *)
Lemma service_effect (rvector : option Z) (c : cycle) (s : SocketBase) :
  let out := service rvector c s in
  vector (state_of out) = vector s
  /\ (exists evs, history (state_of out) = history s ++ evs
                  /\ forallb is_invoke evs = true)
  /\ (forall k, rvector = Some k ->
                keepresult (state_of out) !! k = keepresult s !! k)
  /\ (forall m s', out = Ret (Some m) s' -> rvector = Some (vm_rvector m)).
Proof.
  unfold service.
  destruct (sel_e c).
  { cbn. repeat split; auto. exists []. now rewrite app_nil_r. discriminate. }
  set (data := if sel_r c then _ else None).
  replace (if sel_w c && (0 <? getOutBufferSize1 s) then send1 None false s else s)
    with s by (now destruct (sel_w c && _)).
  pose proof (getAllVectorMessages3_outside data s) as Ho.
  destruct (getAllVectorMessages3 data s) as [msgs s1|e s1|s1];
    cbn [bind state_of] in *; injection Ho as Hob Hobsz Hv Hk Hcb Hsl Hslsz Hwc Hh.
  - pose proof (dispatch_vector rvector msgs s1 None) as Dv.
    pose proof (dispatch_history rvector msgs s1 None) as Dh.
    pose proof (dispatch_ret_matches rvector msgs s1 None) as Dr.
    assert (Dk : forall k, rvector = Some k ->
      keepresult (fst (fold_left (dispatch_msg rvector) msgs (s1, None))) !! k
      = keepresult s1 !! k) by (intros k ->; apply dispatch_awaited_slot).
    unfold dispatch.
    destruct (fold_left (dispatch_msg rvector) msgs (s1, None)) as [s2 ret].
    cbn [fst snd state_of] in *.
    repeat split; try congruence.
    + rewrite <- Hh. exact Dh.
    + intros k Hr. rewrite (Dk k Hr). congruence.
    + intros m s' [= -> <-]. destruct (Dr m eq_refl); [discriminate | auto].
  - repeat split; try congruence.
    exists []. rewrite app_nil_r. split; [congruence | reflexivity].
  - repeat split; try congruence.
    exists []. rewrite app_nil_r. split; [congruence | reflexivity].
Qed.

Lemma serviced_refl rvector s : serviced rvector s s.
Proof.
  repeat split. exists []. now rewrite app_nil_r.
Qed.

Lemma serviced_trans rvector s1 s2 s3 :
  serviced rvector s1 s2 -> serviced rvector s2 s3 -> serviced rvector s1 s3.
Proof.
  intros (Hv & (evs & Hh & He) & Hk) (Hv' & (evs' & Hh' & He') & Hk').
  repeat split.
  - congruence.
  - exists (evs ++ evs'). rewrite Hh', Hh, <- app_assoc. split; [reflexivity|].
    rewrite forallb_app, He, He'. reflexivity.
  - intros k Hr. rewrite (Hk' k Hr). auto.
Qed.

Lemma service_serviced rvector c s : serviced rvector s (state_of (service rvector c s)).
Proof. pose proof (service_effect rvector c s) as H. cbv zeta in H. unfold serviced. tauto. Qed.

Lemma service_ret rvector c s m s' :
  service rvector c s = Ret (Some m) s' -> rvector = Some (vm_rvector m).
Proof. pose proof (service_effect rvector c s) as H. cbv zeta in H. apply H. Qed.

Lemma handle_loop_effect (rvector : option Z) (block : bool) (world : list cycle)
  (s : SocketBase) :
  serviced rvector s (state_of (handle_loop rvector block world s))
  /\ (forall m s', handle_loop rvector block world s = Ret (Some m) s' ->
                   rvector = Some (vm_rvector m)).
Proof.
  revert s. induction world as [|c world IH]; intros s; cbn [handle_loop].
  - destruct block.
    + split; [apply serviced_refl | discriminate].
    + split; [apply service_serviced | apply service_ret].
  - pose proof (service_serviced rvector c s) as H1.
    pose proof (service_ret rvector c s) as H2.
    destruct (service rvector c s) as [[r|] s1|e s1|s1]; cbn [bind state_of] in *.
    + split; [exact H1|]. intros m s' [= -> ->]. eauto.
    + destruct block.
      * destruct (IH s1) as [I1 I2]. split; [|exact I2].
        eapply serviced_trans; eauto.
      * split; [exact H1 | discriminate].
    + split; [exact H1 | discriminate].
    + split; [exact H1 | discriminate].
Qed.

(** [sendVectorMessage3] when the header and the length can be packed. *)
Lemma sendVectorMessage3_ok (msg : bytes) (rvector : Z) (block : bool) (s : SocketBase) :
  0 <= vector s < 2 ^ 64 -> 0 <= rvector < 2 ^ 64 -> 16 + blen msg < 2 ^ 32 ->
  sendVectorMessage3 msg rvector block s =
  Ret (vector s)
      (set_vector (vector s + 1)
         (send1 (Some (wire_format (vector s) rvector msg)) block s)).
Proof.
  intros Hv Hr Hl. unfold sendVectorMessage3, sendMessage2.
  rewrite struct_pack_QQ_Some by assumption.
  assert (E : blen ((be_encode 8 (vector s) ++ be_encode 8 rvector) ++ msg)
              = 16 + blen msg).
  { unfold blen. rewrite !length_app, !be_encode_length. lia. }
  rewrite E, struct_pack_I_Some by (unfold blen in *; lia).
  cbn [bind]. unfold wire_format. rewrite <- (app_assoc (be_encode 8 (vector s))).
  reflexivity.
Qed.

(** Conversely, a call that returns has packed both. *)
Lemma sendVectorMessage3_inv (msg : bytes) (rvector : Z) (block : bool)
  (s s' : SocketBase) (v : Z) :
  sendVectorMessage3 msg rvector block s = Ret v s' ->
  0 <= vector s < 2 ^ 64 /\ 0 <= rvector < 2 ^ 64 /\ 16 + blen msg < 2 ^ 32.
Proof.
  unfold sendVectorMessage3, sendMessage2.
  destruct (struct_pack_QQ (vector s) rvector) as [hdr|] eqn:E; [|discriminate].
  apply struct_pack_QQ_inv in E as (Hv & Hr & ->).
  destruct (struct_pack_I _) as [h|] eqn:E; [|discriminate].
  apply struct_pack_I_inv in E as (Hl & _). intros _.
  unfold blen in *. rewrite !length_app, !be_encode_length in Hl. lia.
Qed.

(** A call that does not return has changed nothing. *)
Lemma sendVectorMessage3_fail (msg : bytes) (rvector : Z) (block : bool) (s : SocketBase) :
  (exists v s', sendVectorMessage3 msg rvector block s = Ret v s')
  \/ sendVectorMessage3 msg rvector block s = Raise StructError s.
Proof.
  unfold sendVectorMessage3, sendMessage2.
  destruct (struct_pack_QQ (vector s) rvector) as [hdr|]; [|now right].
  destruct (struct_pack_I _) as [h|]; [left; eauto | now right].
Qed.

(** ** Sending with a mode *)

(** Every outcome of [sendVectorMessage3] leaves both tables alone. *)
Lemma sendVectorMessage3_tables (msg : bytes) (rvector : Z) (block : bool) (s : SocketBase) :
  keepresult (state_of (sendVectorMessage3 msg rvector block s)) = keepresult s
  /\ callback (state_of (sendVectorMessage3 msg rvector block s)) = callback s.
Proof.
  destruct (sendVectorMessage3_fail msg rvector block s) as [(v & s' & E) | E].
  - pose proof (sendVectorMessage3_inv _ _ _ _ _ _ E) as (Hv & Hr & Hl).
    rewrite sendVectorMessage3_ok by assumption. now split.
  - rewrite E. now split.
Qed.

Lemma sendVectorMessage3_block_irrelevant (msg : bytes) (rvector : Z) (b b' : bool)
  (s : SocketBase) :
  sendVectorMessage3 msg rvector b s = sendVectorMessage3 msg rvector b' s.
Proof. reflexivity. Qed.

(** C9.  [sendVectorMessageWithMode4] called in mode Callback without a
    callback, or with a mode that is none of the four, raises at once, and
    the endpoint the exception leaves behind is the one the call found: no
    frame staged, no entry in either table, the counter where it was. *)
Theorem mode4_misuse_raises (msg : bytes) (rvector mode : Z) (cb : option cb_record)
  (world : list cycle) (s : SocketBase) :
  (mode = IOMode.Callback /\ cb = None)
  \/ (mode <> IOMode.Block /\ mode <> IOMode.Async /\
      mode <> IOMode.Callback /\ mode <> IOMode.Discard) ->
  sendVectorMessageWithMode4 msg rvector mode cb world s =
  Raise (if mode =? IOMode.Callback then CallbackMissing else UnknownMode mode) s.
Proof.
  unfold sendVectorMessageWithMode4.
  intros [[-> ->] | (Hb & Ha & Hc & Hd)].
  - reflexivity.
  - destruct (Z.eqb_spec mode IOMode.Async); [contradiction|].
    destruct (Z.eqb_spec mode IOMode.Callback); [contradiction|].
    destruct (Z.eqb_spec mode IOMode.Discard); [contradiction|].
    destruct (Z.eqb_spec mode IOMode.Block); [contradiction|].
    reflexivity.
Qed.

Lemma mode4_misuse_raises_witness :
  sendVectorMessageWithMode4 payload_A 0 IOMode.Callback None [] __init__ =
  Raise CallbackMissing __init__.
Proof.
  apply (mode4_misuse_raises payload_A 0 IOMode.Callback None [] __init__).
  left. split; reflexivity.
Defined.

(** C10.  In mode Discard [sendVectorMessageWithMode4] is
    [sendVectorMessage3] on the same message and reply vector: the same
    vector comes back, the endpoint ends up the same (staged bytes, counter
    and all), also when the call raises, and neither table gets an entry. *)
Theorem discard_is_sendVectorMessage3 (msg : bytes) (rvector : Z)
  (cb : option cb_record) (world : list cycle) (block : bool) (s : SocketBase) :
  let out := sendVectorMessageWithMode4 msg rvector IOMode.Discard cb world s in
  out = as_vector (sendVectorMessage3 msg rvector block s)
  /\ keepresult (state_of out) = keepresult s
  /\ callback (state_of out) = callback s.
Proof.
  intros out.
  assert (E : out = as_vector (sendVectorMessage3 msg rvector block s)) by reflexivity.
  split; [exact E|]. rewrite E.
  pose proof (sendVectorMessage3_tables msg rvector block s) as H.
  unfold as_vector. destruct (sendVectorMessage3 msg rvector block s); exact H.
Qed.

(** The endpoint after the registration and the hand-over of the frame. *)
Lemma mode4_block_unfold (msg : bytes) (rvector : Z) (cb : option cb_record)
  (world : list cycle) (s : SocketBase) :
  0 <= vector s < 2 ^ 64 -> 0 <= rvector < 2 ^ 64 -> 16 + blen msg < 2 ^ 32 ->
  let s1 := log (EvKeep (vector s))
              (set_keepresult (<[vector s := None]> (keepresult s)) s) in
  let s2 := set_vector (vector s + 1)
              (send1 (Some (wire_format (vector s) rvector msg)) false s1) in
  sendVectorMessageWithMode4 msg rvector IOMode.Block cb world s =
  do r, s3 <- handle_loop (Some (vector s)) true world s2; Ret (Reply r) s3.
Proof.
  intros Hv Hr Hl s1 s2. unfold sendVectorMessageWithMode4.
  change (IOMode.Block =? IOMode.Async) with false.
  change (IOMode.Block =? IOMode.Callback) with false.
  change (IOMode.Block =? IOMode.Discard) with false.
  change (negb (IOMode.Block =? IOMode.Block)) with false. cbv iota.
  fold s1. rewrite (sendVectorMessage3_ok msg rvector false s1) by assumption.
  change (vector s1) with (vector s). fold s2. cbn [bind].
  unfold handleVectorMessages4.
  assert (E : keepresult s2 !! vector s = Some None) by apply lookup_insert_eq.
  rewrite E. reflexivity.
Qed.

Lemma mode4_block_inv (msg : bytes) (rvector : Z) (cb : option cb_record)
  (world : list cycle) (s s' : SocketBase) (r : mode4_result) :
  sendVectorMessageWithMode4 msg rvector IOMode.Block cb world s = Ret r s' ->
  0 <= vector s < 2 ^ 64 /\ 0 <= rvector < 2 ^ 64 /\ 16 + blen msg < 2 ^ 32.
Proof.
  unfold sendVectorMessageWithMode4.
  change (IOMode.Block =? IOMode.Async) with false.
  change (IOMode.Block =? IOMode.Callback) with false.
  change (IOMode.Block =? IOMode.Discard) with false.
  change (negb (IOMode.Block =? IOMode.Block)) with false. cbv iota.
  set (s1 := log _ _).
  destruct (sendVectorMessage3 msg rvector false s1) as [v s2| |] eqn:E;
    cbn [bind]; try discriminate.
  intros _. apply sendVectorMessage3_inv in E. exact E.
Qed.

(** A blocking wait that returns returns a message. *)
Lemma handle_loop_block_Some (rvector : option Z) (world : list cycle)
  (s s' : SocketBase) (x : option vmsg) :
  handle_loop rvector true world s = Ret x s' -> exists m, x = Some m.
Proof.
  revert s. induction world as [|c world IH]; intros s; cbn [handle_loop].
  - discriminate.
  - destruct (service rvector c s) as [[m|] s1| |]; cbn [bind]; try discriminate.
    + intros [= <- _]. eauto.
    + apply IH.
Qed.

(** Whenever a Block-mode call returns, it returns a reply to the vector it
    sent, and the slot it registered for that vector is still in
    [keepresult], empty. *)
Lemma mode4_block_returns (msg : bytes) (rvector : Z) (cb : option cb_record)
  (world : list cycle) (s s' : SocketBase) (r : mode4_result) :
  sendVectorMessageWithMode4 msg rvector IOMode.Block cb world s = Ret r s' ->
  (exists v p, r = Reply (Some (v, vector s, p)))
  /\ vector s' = vector s + 1
  /\ keepresult s' !! vector s = Some None.
Proof.
  intros H. pose proof (mode4_block_inv _ _ _ _ _ _ _ H) as (Hv & Hr & Hl).
  rewrite mode4_block_unfold in H by assumption.
  set (s2 := set_vector _ _) in H.
  destruct (handle_loop_effect (Some (vector s)) true world s2) as [(Ev & _ & Ek) Hret].
  destruct (handle_loop (Some (vector s)) true world s2) as [x s3| |] eqn:E;
    cbn [bind state_of] in *; try discriminate.
  injection H as <- <-.
  pose proof (handle_loop_block_Some _ _ _ _ _ E) as Hx.
  destruct Hx as [[[v rv] p] ->].
  specialize (Hret _ _ eq_refl). injection Hret as Hrv. cbn in Hrv. subst rv.
  repeat split.
  - eauto.
  - rewrite Ev. reflexivity.
  - rewrite (Ek _ eq_refl). apply lookup_insert_eq.
Qed.

(** C5: the code at a Block-mode request that is answered.  An endpoint
    fresh from [__init__] sends ["A"] in mode Block; the reply to vector 0
    arrives in the next read.  The call returns that reply, and
    [keepresult] still holds the (empty) slot of vector 0. *)
Theorem block_reply_leaves_slot :
  exists s',
    sendVectorMessageWithMode4 payload_A 0 IOMode.Block None
      [readable (wire_format 7 0 payload_B)] __init__
    = Ret (Reply (Some (7, 0, payload_B))) s'
    /\ keepresult s' !! 0 = Some None.
Proof. eexists. split; vm_compute; reflexivity. Qed.

(** The other way out of [handleVectorMessages4] does remove the slot: a
    reply found stored is returned and its entry deleted. *)
Lemma stored_reply_removes_slot (k : Z) (m : vmsg) (block : bool)
  (world : list cycle) (s : SocketBase) :
  keepresult s !! k = Some (Some m) ->
  handleVectorMessages4 (Some k) block world s =
  Ret (Some m) (set_keepresult (delete k (keepresult s)) s).
Proof. intros H. unfold handleVectorMessages4. now rewrite H. Qed.

(** C6, as stated, fails in mode Block: the call hands back the reply, not
    the vector it assigned. *)
Lemma block_returns_reply_not_vector :
  let out := sendVectorMessageWithMode4 payload_A 0 IOMode.Block None
               [readable (wire_format 7 0 payload_B)] __init__ in
  (exists s', out = Ret (Reply (Some (7, 0, payload_B))) s')
  /\ ~ (exists s', out = Ret (Vector (vector __init__)) s').
Proof.
  split.
  - eexists. vm_compute. reflexivity.
  - intros [s' H]. vm_compute in H. discriminate H.
Qed.

Lemma mode4_async_unfold (msg : bytes) (rvector : Z) (cb : option cb_record)
  (world : list cycle) (s : SocketBase) :
  0 <= vector s < 2 ^ 64 -> 0 <= rvector < 2 ^ 64 -> 16 + blen msg < 2 ^ 32 ->
  let s1 := log (EvKeep (vector s))
              (set_keepresult (<[vector s := None]> (keepresult s)) s) in
  sendVectorMessageWithMode4 msg rvector IOMode.Async cb world s =
  Ret (Vector (vector s))
      (set_vector (vector s + 1)
         (send1 (Some (wire_format (vector s) rvector msg)) true s1)).
Proof.
  intros Hv Hr Hl s1. unfold sendVectorMessageWithMode4.
  change (IOMode.Async =? IOMode.Async) with true. cbv iota. fold s1.
  rewrite (sendVectorMessage3_ok msg rvector true s1) by assumption.
  reflexivity.
Qed.

Lemma mode4_callback_unfold (msg : bytes) (rvector : Z) (c : cb_record)
  (world : list cycle) (s : SocketBase) :
  0 <= vector s < 2 ^ 64 -> 0 <= rvector < 2 ^ 64 -> 16 + blen msg < 2 ^ 32 ->
  let s1 := log (EvCallback (vector s) c)
              (set_callback (<[vector s := c]> (callback s)) s) in
  sendVectorMessageWithMode4 msg rvector IOMode.Callback (Some c) world s =
  Ret (Vector (vector s))
      (set_vector (vector s + 1)
         (send1 (Some (wire_format (vector s) rvector msg)) true s1)).
Proof.
  intros Hv Hr Hl s1. unfold sendVectorMessageWithMode4.
  change (IOMode.Callback =? IOMode.Async) with false.
  change (IOMode.Callback =? IOMode.Callback) with true. cbv iota. fold s1.
  rewrite (sendVectorMessage3_ok msg rvector true s1) by assumption.
  reflexivity.
Qed.

Lemma mode4_discard_unfold (msg : bytes) (rvector : Z) (cb : option cb_record)
  (world : list cycle) (s : SocketBase) :
  0 <= vector s < 2 ^ 64 -> 0 <= rvector < 2 ^ 64 -> 16 + blen msg < 2 ^ 32 ->
  sendVectorMessageWithMode4 msg rvector IOMode.Discard cb world s =
  Ret (Vector (vector s))
      (set_vector (vector s + 1)
         (send1 (Some (wire_format (vector s) rvector msg)) true s)).
Proof.
  intros Hv Hr Hl. unfold sendVectorMessageWithMode4.
  change (IOMode.Discard =? IOMode.Async) with false.
  change (IOMode.Discard =? IOMode.Callback) with false.
  change (IOMode.Discard =? IOMode.Discard) with true. cbv iota.
  rewrite (sendVectorMessage3_ok msg rvector true s) by assumption.
  reflexivity.
Qed.

(** C6, as amended.  For a message that fits a frame and vectors that fit 64
    bits: in the modes Async, Callback (with a callback) and Discard,
    [sendVectorMessageWithMode4] returns the vector assigned to the outbound
    message; in mode Block it returns what [handleVectorMessages4] returns,
    the reply [(v, rv, payload)] whose [rv] is the vector assigned. *)
Theorem mode4_result_by_mode (msg : bytes) (rvector mode : Z) (cb : option cb_record)
  (world : list cycle) (s : SocketBase) :
  0 <= vector s < 2 ^ 64 -> 0 <= rvector < 2 ^ 64 -> 16 + blen msg < 2 ^ 32 ->
  let out := sendVectorMessageWithMode4 msg rvector mode cb world s in
  (mode = IOMode.Async \/ mode = IOMode.Discard \/
   (mode = IOMode.Callback /\ cb <> None) ->
   exists s', out = Ret (Vector (vector s)) s')
  /\ (mode = IOMode.Block ->
      forall r s', out = Ret r s' -> exists v p, r = Reply (Some (v, vector s, p))).
Proof.
  intros Hv Hr Hl out. split.
  - intros [-> | [-> | [-> Hcb]]]; subst out.
    + rewrite mode4_async_unfold by assumption. eauto.
    + rewrite mode4_discard_unfold by assumption. eauto.
    + destruct cb as [c|]; [|contradiction].
      rewrite mode4_callback_unfold by assumption. eauto.
  - intros -> r s' H. now apply mode4_block_returns in H.
Qed.

Lemma mode4_result_by_mode_witness :
  let out := sendVectorMessageWithMode4 payload_A 0 IOMode.Block None
               [readable (wire_format 7 0 payload_B)] __init__ in
  (IOMode.Block = IOMode.Async \/ IOMode.Block = IOMode.Discard \/
   (IOMode.Block = IOMode.Callback /\ @None cb_record <> None) ->
   exists s', out = Ret (Vector (vector __init__)) s')
  /\ (IOMode.Block = IOMode.Block ->
      forall r s', out = Ret r s' ->
                   exists v p, r = Reply (Some (v, vector __init__, p))).
Proof.
  apply (mode4_result_by_mode payload_A 0 IOMode.Block None
           [readable (wire_format 7 0 payload_B)] __init__).
  - change (vector __init__) with 0. lia.
  - lia.
  - change (blen payload_A) with 1. lia.
Defined.

Lemma state_of_bind_Ret {A B} (m : outcome A) (f : A -> B) :
  state_of (do a, s <- m; Ret (f a) s) = state_of m.
Proof. now destruct m. Qed.

(** The history of a Block-mode call: registration, then the frame, then
    callback invocations only. *)
Lemma mode4_block_history (msg : bytes) (rvector : Z) (cb : option cb_record)
  (world : list cycle) (s : SocketBase) :
  0 <= vector s < 2 ^ 64 -> 0 <= rvector < 2 ^ 64 -> 16 + blen msg < 2 ^ 32 ->
  exists rest,
    history (state_of (sendVectorMessageWithMode4 msg rvector IOMode.Block cb world s))
    = history s ++ EvKeep (vector s)
        :: EvWire (wire_format (vector s) rvector msg) :: rest
    /\ forallb is_invoke rest = true.
Proof.
  intros Hv Hr Hl.
  rewrite mode4_block_unfold by assumption. rewrite state_of_bind_Ret.
  set (s2 := set_vector _ _).
  destruct (handle_loop_effect (Some (vector s)) true world s2)
    as [(_ & (evs & Hh & He) & _) _].
  exists evs. split; [|exact He]. rewrite Hh. subst s2. cbn.
  now rewrite <- !app_assoc.
Qed.

(** C2.  In the modes Block, Async and Callback,
    [sendVectorMessageWithMode4] puts the entry for the vector of the
    outbound message into its table before it hands the frame to the
    outbound path: in the history of the endpoint the registration comes
    first, the frame right after it, and nothing but callback invocations
    later.  Hence a reply that another caller's round of the dispatcher meets
    after an Async or Callback send finds the entry: it is stored in the
    slot, or passed to the callback, and not discarded. *)
Theorem registration_precedes_frame (msg : bytes) (rvector mode : Z)
  (cb : option cb_record) (c : cb_record) (world : list cycle) (s : SocketBase) :
  0 <= vector s < 2 ^ 64 -> 0 <= rvector < 2 ^ 64 -> 16 + blen msg < 2 ^ 32 ->
  mode = IOMode.Block \/ mode = IOMode.Async \/
  (mode = IOMode.Callback /\ cb = Some c) ->
  let v := vector s in
  let reg := if mode =? IOMode.Callback then EvCallback v c else EvKeep v in
  let s' := state_of (sendVectorMessageWithMode4 msg rvector mode cb world s) in
  (exists rest,
      history s' = history s ++ reg :: EvWire (wire_format v rvector msg) :: rest
      /\ forallb is_invoke rest = true)
  /\ (mode = IOMode.Async ->
      forall m other, vm_rvector m = v -> other <> Some v ->
        dispatch other [m] s' =
        (set_keepresult (<[v := Some m]> (keepresult s')) s', None))
  /\ (mode = IOMode.Callback -> keepresult s !! v = None ->
      forall m other, vm_rvector m = v -> other <> Some v ->
        dispatch other [m] s' =
        (log (EvInvoke c (vm_vector m) v (vm_payload m))
             (set_callback (delete v (callback s')) s'), None)).
Proof.
  intros Hv Hr Hl Hmode v reg s'.
  destruct Hmode as [-> | [-> | [-> ->]]]; subst reg s'.
  - (* Block *)
    split; [|split; [discriminate | discriminate]].
    now apply mode4_block_history.
  - (* Async *)
    rewrite mode4_async_unfold by assumption. cbn [state_of].
    split; [|split; [|discriminate]].
    + exists []. split; [|reflexivity]. cbn. now rewrite <- !app_assoc.
    + intros _ m other Hm Ho. unfold dispatch. cbn [fold_left].
      set (s1 := set_vector _ _).
      destruct (dispatch_msg_cases other s1 None m) as
        [(Hx & _) | [(_ & _ & ->) | [(_ & Hk & _) | (_ & Hk & _)]]].
      * congruence.
      * now rewrite Hm.
      * rewrite Hm in Hk. subst s1 v. cbn in Hk.
        now rewrite lookup_insert_eq in Hk.
      * rewrite Hm in Hk. subst s1 v. cbn in Hk.
        now rewrite lookup_insert_eq in Hk.
  - (* Callback *)
    rewrite mode4_callback_unfold by assumption. cbn [state_of].
    split; [|split; [discriminate|]].
    + exists []. split; [|reflexivity]. cbn. now rewrite <- !app_assoc.
    + intros _ Hfree m other Hm Ho. unfold dispatch. cbn [fold_left].
      set (s1 := set_vector _ _).
      destruct (dispatch_msg_cases other s1 None m) as
        [(Hx & _) | [(_ & Hk & _) | [(_ & _ & c' & Hc & ->) | (_ & _ & Hc & _)]]].
      * congruence.
      * rewrite Hm in Hk. subst s1 v. cbn in Hk. rewrite Hfree in Hk.
        now destruct Hk.
      * rewrite Hm in *. subst s1 v. cbn in Hc.
        rewrite lookup_insert_eq in Hc. now injection Hc as <-.
      * rewrite Hm in Hc. subst s1 v. cbn in Hc.
        now rewrite lookup_insert_eq in Hc.
Qed.

Lemma registration_precedes_frame_witness :
  let s' := state_of (sendVectorMessageWithMode4 payload_A 0 IOMode.Async None [] __init__) in
  history s' = [EvKeep 0; EvWire (wire_format 0 0 payload_A)]
  /\ dispatch None [(7, 0, payload_B)] s' =
     (set_keepresult (<[0 := Some (7, 0, payload_B)]> (keepresult s')) s', None).
Proof.
  assert (H0 : 0 <= vector __init__ < 2 ^ 64) by (change (vector __init__) with 0; lia).
  assert (H1 : 0 <= 0 < 2 ^ 64) by lia.
  assert (H2 : 16 + blen payload_A < 2 ^ 32) by (change (blen payload_A) with 1; lia).
  destruct (registration_precedes_frame payload_A 0 IOMode.Async None (mk_cb 0 0) []
              __init__ H0 H1 H2 (or_intror (or_introl eq_refl)))
    as ((rest & Hh & _) & Ha & _).
  split.
  - reflexivity.
  - apply (Ha eq_refl (7, 0, payload_B) None); [reflexivity | discriminate].
Defined.

(** ** The vector counter *)

Lemma frame_vector_wire_format (v rv : Z) (p : bytes) :
  0 <= v < 2 ^ 64 -> frame_vector (wire_format v rv p) = v.
Proof.
  intros Hv. unfold frame_vector, wire_format.
  rewrite drop_app_length' by (symmetry; apply be_encode_length).
  rewrite take_app_length' by (symmetry; apply be_encode_length).
  now apply be_decode_encode_small.
Qed.

Lemma wire_of_app (h h' : list event) : wire_of (h ++ h') = wire_of h ++ wire_of h'.
Proof. unfold wire_of. apply omap_app. Qed.

Lemma wire_of_invokes (evs : list event) :
  forallb is_invoke evs = true -> wire_of evs = [].
Proof.
  induction evs as [|e evs IH]; [reflexivity|].
  cbn [forallb]. intros H. apply andb_true_iff in H as [He Hevs].
  destruct e; try discriminate. cbn. now apply IH.
Qed.

Lemma emitted_app (s s' : SocketBase) (evs : list event) :
  history s' = history s ++ evs -> emitted s s' = wire_of evs.
Proof. intros H. unfold emitted. now rewrite H, drop_app_length. Qed.

Lemma mode4_Ret_inv (msg : bytes) (rvector mode : Z) (cb : option cb_record)
  (world : list cycle) (s s' : SocketBase) (r : mode4_result) :
  sendVectorMessageWithMode4 msg rvector mode cb world s = Ret r s' ->
  (0 <= vector s < 2 ^ 64 /\ 0 <= rvector < 2 ^ 64 /\ 16 + blen msg < 2 ^ 32)
  /\ (mode = IOMode.Async \/ mode = IOMode.Discard \/ mode = IOMode.Block \/
      (mode = IOMode.Callback /\ exists c, cb = Some c)).
Proof.
  intros H. pose proof H as H'. revert H'.
  unfold sendVectorMessageWithMode4.
  destruct (Z.eqb_spec mode IOMode.Async) as [->|Ha].
  { set (s1 := log _ _).
    destruct (sendVectorMessage3 msg rvector true s1) as [v s2| |] eqn:E;
      cbn [bind]; try discriminate.
    intros _. apply sendVectorMessage3_inv in E. auto. }
  destruct (Z.eqb_spec mode IOMode.Callback) as [->|Hc].
  { destruct cb as [c|]; [|discriminate]. set (s1 := log _ _).
    destruct (sendVectorMessage3 msg rvector true s1) as [v s2| |] eqn:E;
      cbn [bind]; try discriminate.
    intros _. apply sendVectorMessage3_inv in E. split; [exact E|].
    right; right; right. eauto. }
  destruct (Z.eqb_spec mode IOMode.Discard) as [->|Hd].
  { destruct (sendVectorMessage3 msg rvector true s) as [v s2| |] eqn:E;
      cbn [bind]; try discriminate.
    intros _. apply sendVectorMessage3_inv in E. auto. }
  destruct (Z.eqb_spec mode IOMode.Block) as [->|Hb]; [|discriminate].
  intros _. apply mode4_block_inv in H. auto.
Qed.

Lemma sent_one (pre rest : list event) (d : bytes) :
  wire_of pre = [] -> wire_of rest = [] ->
  map frame_vector (wire_of (pre ++ EvWire d :: rest)) = [frame_vector d].
Proof.
  intros Hp Hr. rewrite wire_of_app, Hp.
  change (wire_of (EvWire d :: rest)) with (d :: wire_of rest).
  now rewrite Hr.
Qed.

(** A vector send that returns has advanced the counter by one and handed
    over exactly one frame, which carries the value the counter had; where a
    vector is returned it is that value. *)
Lemma run_send_effect (c : send_call) (s s' : SocketBase) (r : mode4_result) :
  run_send c s = Ret r s' ->
  vector s' = vector s + 1
  /\ map frame_vector (emitted s s') = [vector s]
  /\ (forall v, r = Vector v -> v = vector s).
Proof.
  destruct c as [msg rvector block | msg rvector mode cb world]; cbn [run_send].
  - unfold as_vector.
    destruct (sendVectorMessage3 msg rvector block s) as [v s1| |] eqn:E;
      cbn [bind]; try discriminate.
    intros [= <- <-].
    pose proof (sendVectorMessage3_inv _ _ _ _ _ _ E) as (Hv & Hr & Hl).
    rewrite sendVectorMessage3_ok in E by assumption. injection E as <- <-.
    repeat split.
    + rewrite (emitted_app s _ ([] ++ EvWire (wire_format (vector s) rvector msg) :: []))
        by reflexivity.
      rewrite sent_one by reflexivity. now rewrite frame_vector_wire_format.
    + now intros v [= <-].
  - intros H. pose proof (mode4_Ret_inv _ _ _ _ _ _ _ _ H) as
      ((Hv & Hr & Hl) & [-> | [-> | [-> | [-> [c ->]]]]]).
    + rewrite mode4_async_unfold in H by assumption. injection H as <- <-.
      repeat split.
      * rewrite (emitted_app s _ ([EvKeep (vector s)] ++
                                  EvWire (wire_format (vector s) rvector msg) :: [])).
        -- rewrite sent_one by reflexivity. now rewrite frame_vector_wire_format.
        -- cbn. now rewrite <- app_assoc.
      * now intros v [= <-].
    + rewrite mode4_discard_unfold in H by assumption. injection H as <- <-.
      repeat split.
      * rewrite (emitted_app s _ ([] ++ EvWire (wire_format (vector s) rvector msg) :: []))
          by reflexivity.
        rewrite sent_one by reflexivity. now rewrite frame_vector_wire_format.
      * now intros v [= <-].
    + destruct (mode4_block_returns _ _ _ _ _ _ _ H) as ((v & p & ->) & Hv' & _).
      destruct (mode4_block_history msg rvector cb world s Hv Hr Hl)
        as (rest & Hh & Hrest).
      rewrite H in Hh. cbn [state_of] in Hh.
      repeat split; [exact Hv' | | discriminate].
      rewrite (emitted_app _ _ _ Hh).
      change (map frame_vector
                (wire_of ([EvKeep (vector s)] ++
                          EvWire (wire_format (vector s) rvector msg) :: rest))
              = [vector s]).
      rewrite (sent_one [EvKeep (vector s)] rest
                 (wire_format (vector s) rvector msg) eq_refl
                 (wire_of_invokes _ Hrest)).
      now rewrite frame_vector_wire_format.
    + rewrite mode4_callback_unfold in H by assumption. injection H as <- <-.
      repeat split.
      * rewrite (emitted_app s _ ([EvCallback (vector s) c] ++
                                  EvWire (wire_format (vector s) rvector msg) :: [])).
        -- rewrite sent_one by reflexivity. now rewrite frame_vector_wire_format.
        -- cbn. now rewrite <- app_assoc.
      * now intros v [= <-].
Qed.

(** ** What leaves the outbound queue alone *)

Lemma dispatch_queue (rvector : option Z) (msgs : list vmsg) (s : SocketBase)
  (ret : option vmsg) :
  queue (fst (fold_left (dispatch_msg rvector) msgs (s, ret))) = queue s.
Proof.
  revert s ret. induction msgs as [|x msgs IH]; intros s ret; [reflexivity|].
  cbn [fold_left].
  destruct (dispatch_msg_cases rvector s ret x) as
    [(Hm & ->) | [(Hm & _ & ->) | [(Hm & _ & cb & _ & ->) | (Hm & _ & _ & ->)]]];
    now rewrite IH.
Qed.

Lemma outside_inbuf_queue (s s' : SocketBase) :
  outside_inbuf s' = outside_inbuf s -> queue s' = queue s /\ vector s' = vector s.
Proof. unfold outside_inbuf, queue. intros [= -> -> -> _ _ _ _ _ _]. auto. Qed.

Lemma service_queue (rvector : option Z) (c : cycle) (s : SocketBase) :
  queue (state_of (service rvector c s)) = queue s.
Proof.
  unfold service. destruct (sel_e c); [reflexivity|].
  set (data := if sel_r c then _ else None).
  replace (if sel_w c && (0 <? getOutBufferSize1 s) then send1 None false s else s)
    with s by (now destruct (sel_w c && _)).
  destruct (outside_inbuf_queue _ _ (getAllVectorMessages3_outside data s)) as [Hq _].
  destruct (getAllVectorMessages3 data s) as [msgs s1|e s1|s1];
    cbn [bind state_of] in *; try exact Hq.
  pose proof (dispatch_queue rvector msgs s1 None) as Dq. unfold dispatch.
  destruct (fold_left (dispatch_msg rvector) msgs (s1, None)) as [s2 ret].
  cbn [fst state_of] in *. congruence.
Qed.

Lemma handle_loop_queue (rvector : option Z) (block : bool) (world : list cycle)
  (s : SocketBase) :
  queue (state_of (handle_loop rvector block world s)) = queue s.
Proof.
  revert s. induction world as [|c world IH]; intros s; cbn [handle_loop].
  - destruct block; [reflexivity | apply service_queue].
  - pose proof (service_queue rvector c s) as H.
    destruct (service rvector c s) as [[r|] s1|e s1|s1]; cbn [bind state_of] in *;
      try exact H.
    destruct block; [|exact H]. rewrite IH. exact H.
Qed.

Lemma handleVectorMessages4_queue (rvector : option Z) (block : bool)
  (world : list cycle) (s : SocketBase) :
  queue (state_of (handleVectorMessages4 rvector block world s)) = queue s.
Proof.
  unfold handleVectorMessages4.
  destruct rvector as [r|]; [|apply handle_loop_queue].
  destruct (keepresult s !! r) as [[ret|]|]; try apply handle_loop_queue.
  reflexivity.
Qed.

Lemma handleVectorMessages4_vector (rvector : option Z) (block : bool)
  (world : list cycle) (s : SocketBase) :
  vector (state_of (handleVectorMessages4 rvector block world s)) = vector s.
Proof.
  unfold handleVectorMessages4.
  assert (H : vector (state_of (handle_loop rvector block world s)) = vector s)
    by apply handle_loop_effect.
  destruct rvector as [r|]; [|exact H].
  destruct (keepresult s !! r) as [[ret|]|]; try exact H.
  reflexivity.
Qed.

Lemma send1_queue (data : option bytes) (block : bool) (s : SocketBase) :
  queue (send1 data block s) = queue s /\ vector (send1 data block s) = vector s.
Proof. now destruct data. Qed.

Lemma sendMessage2_queue (msg : bytes) (block : bool) (s : SocketBase) :
  queue (state_of (sendMessage2 msg block s)) = queue s
  /\ vector (state_of (sendMessage2 msg block s)) = vector s.
Proof. unfold sendMessage2. now destruct (struct_pack_I _). Qed.

Lemma sendVectorMessage3_queue (msg : bytes) (rvector : Z) (block : bool) (s : SocketBase) :
  queue (state_of (sendVectorMessage3 msg rvector block s)) = queue s
  /\ vector s <= vector (state_of (sendVectorMessage3 msg rvector block s)).
Proof.
  destruct (sendVectorMessage3_fail msg rvector block s) as [(v & s' & E) | E].
  - pose proof (sendVectorMessage3_inv _ _ _ _ _ _ E) as (Hv & Hr & Hl).
    rewrite sendVectorMessage3_ok by assumption. cbn. split; [reflexivity | lia].
  - rewrite E. cbn. split; [reflexivity | lia].
Qed.

Lemma run_send_queue (c : send_call) (s : SocketBase) :
  queue (state_of (run_send c s)) = queue s
  /\ vector s <= vector (state_of (run_send c s)).
Proof.
  destruct c as [msg rvector block | msg rvector mode cb world]; cbn [run_send].
  - unfold as_vector. rewrite state_of_bind_Ret. apply sendVectorMessage3_queue.
  - unfold sendVectorMessageWithMode4.
    destruct (mode =? IOMode.Async).
    { rewrite state_of_bind_Ret. set (s1 := log _ _).
      exact (sendVectorMessage3_queue msg rvector true s1). }
    destruct (mode =? IOMode.Callback).
    { destruct cb as [c|]; [|cbn; split; [reflexivity | lia]].
      rewrite state_of_bind_Ret. set (s1 := log _ _).
      exact (sendVectorMessage3_queue msg rvector true s1). }
    destruct (mode =? IOMode.Discard).
    { rewrite state_of_bind_Ret. apply sendVectorMessage3_queue. }
    destruct (negb (mode =? IOMode.Block)); [cbn; split; [reflexivity | lia]|].
    set (s1 := log _ _).
    destruct (sendVectorMessage3_queue msg rvector false s1) as [Hq Hv].
    destruct (sendVectorMessage3 msg rvector false s1) as [v s2|e s2|s2];
      cbn [bind state_of] in *; try (split; [exact Hq | exact Hv]).
    rewrite state_of_bind_Ret, handleVectorMessages4_queue,
      handleVectorMessages4_vector.
    split; [exact Hq | exact Hv].
Qed.

(** ** The outbound queue *)

Lemma total_len_app (q q' : list bytes) : total_len (q ++ q') = total_len q + total_len q'.
Proof.
  unfold total_len. induction q as [|x q IH]; [reflexivity|].
  cbn [app fold_right]. rewrite IH. lia.
Qed.

Lemma total_len_cons (x : bytes) (q : list bytes) :
  total_len (x :: q) = blen x + total_len q.
Proof. reflexivity. Qed.

Lemma send_chunk_total (answers : list send_answer) (data : bytes) (t : nat) :
  (t <= length data)%nat ->
  (t <= (send_chunk answers data t).1.2 <= length data)%nat
  /\ ((send_chunk answers data t).1.1 = true ->
      (send_chunk answers data t).1.2 = length data).
Proof.
  revert t. induction answers as [|a answers IH]; intros t Ht.
  - cbn [send_chunk]. destruct (Nat.ltb_spec t (length data)); cbn; split; try lia;
      discriminate.
  - cbn [send_chunk]. destruct (Nat.ltb_spec t (length data)); [|cbn; split; lia].
    destruct a as [k|]; [|cbn; split; [lia | discriminate]].
    destruct (Nat.eqb_spec (k `min` (length data - t)) 0);
      [cbn; split; [lia | discriminate]|].
    destruct (IH (t + k `min` (length data - t))%nat ltac:(lia)) as [I1 I2].
    split; [lia | exact I2].
Qed.

(** Draining keeps the counter equal to what is left in the queue. *)
Lemma send_queue_ok (answers : list send_answer) (q : list bytes) (sz : Z) :
  sz = total_len q ->
  (send_queue answers q sz).2 = total_len (send_queue answers q sz).1.
Proof.
  revert answers sz. induction q as [|data q IH]; intros answers sz Hsz.
  - exact Hsz.
  - cbn [send_queue].
    pose proof (send_chunk_total answers data 0 ltac:(lia)) as [H1 H2].
    destruct (send_chunk answers data 0) as [[whole totalsent] answers'].
    cbn [fst snd] in *. destruct whole.
    + apply IH. rewrite Hsz, (H2 eq_refl), total_len_cons. unfold blen. lia.
    + cbn [fst snd]. rewrite Hsz, !total_len_cons. unfold blen.
      rewrite length_drop. lia.
Qed.

Lemma drain_keeps_queue_ok (answers : list send_answer) (s : SocketBase) :
  queue_ok s -> queue_ok (__send1 answers s).
Proof.
  unfold queue_ok, __send1. intros H.
  pose proof (send_queue_ok answers (oubuf s) (oubufsz s) H) as E.
  destruct (send_queue answers (oubuf s) (oubufsz s)) as [q sz]. exact E.
Qed.

(** The first loop of the latency thread appends the overdue chunks to the
    queue, in the order they were staged, and counts them. *)
Lemma stage_out_spec (now : Q) (items tr : list (Q * bytes)) (s : SocketBase) :
  let due := List.filter (overdue now) items in
  let s' := (stage_out now items tr s).2 in
  (stage_out now items tr s).1 = tr ++ due
  /\ oubuf s' = oubuf s ++ map snd due
  /\ oubufsz s' = oubufsz s + total_len (map snd due)
  /\ slowsz s' = slowsz s - total_len (map snd due)
  /\ slow s' = slow s /\ vector s' = vector s.
Proof.
  revert tr s. induction items as [|item items IH]; intros tr s.
  - cbn. rewrite !app_nil_r. repeat split; lia.
  - cbn [stage_out List.filter]. destruct (overdue now item).
    + set (s1 := set_slowsz _ _).
      destruct (IH (tr ++ [item]) s1) as (I1 & I2 & I3 & I4 & I5 & I6).
      cbv zeta. rewrite I1, I2, I3, I4, I5, I6. subst s1.
      cbn [map oubuf oubufsz slowsz slow vector set_slowsz set_oubufsz set_oubuf].
      rewrite total_len_cons, <- !app_assoc. repeat split; lia.
    + apply IH.
Qed.

Lemma latency_round_keeps_queue_ok (answers : list send_answer) (s : SocketBase) :
  queue_ok s -> queue_ok (__latencySimThread answers s).
Proof.
  intros H. unfold __latencySimThread.
  pose proof (stage_out_spec (wallclock s) (slow s) [] s) as (_ & I2 & I3 & _).
  destruct (stage_out (wallclock s) (slow s) [] s) as [tr s1]. cbn [fst snd] in *.
  set (s2 := set_slow _ s1).
  assert (H2 : queue_ok s2).
  { unfold queue_ok in *. subst s2. cbn. rewrite I2, I3, total_len_app. lia. }
  destruct (0 <? getOutBufferSize1 s2); [now apply drain_keeps_queue_ok | exact H2].
Qed.

Lemma latency_round_vector (answers : list send_answer) (s : SocketBase) :
  vector (__latencySimThread answers s) = vector s.
Proof.
  unfold __latencySimThread.
  pose proof (stage_out_spec (wallclock s) (slow s) [] s) as (_ & _ & _ & _ & _ & I6).
  destruct (stage_out (wallclock s) (slow s) [] s) as [tr s1]. cbn [fst snd] in *.
  set (s2 := set_slow _ s1).
  destruct (0 <? getOutBufferSize1 s2); [|exact I6].
  unfold __send1. destruct (send_queue _ _ _). exact I6.
Qed.

Lemma queue_ok_queue (s s' : SocketBase) : queue s' = queue s -> queue_ok s -> queue_ok s'.
Proof. unfold queue, queue_ok. intros [= -> ->]. auto. Qed.

(** No operation lowers the counter, and every one keeps the size counter
    in step with the queue. *)
Lemma run_op_invariant (o : op) (s : SocketBase) :
  vector s <= vector (run_op o s) /\ (queue_ok s -> queue_ok (run_op o s)).
Proof.
  destruct o; cbn [run_op].
  - destruct (send1_queue data block s) as [Hq Hv].
    split; [lia | now apply queue_ok_queue].
  - destruct (sendMessage2_queue msg block s) as [Hq Hv].
    split; [lia | now apply queue_ok_queue].
  - destruct (run_send_queue c s) as [Hq Hv].
    split; [lia | now apply queue_ok_queue].
  - destruct (outside_inbuf_queue _ _ (getMessage2_outside data s)) as [Hq Hv].
    split; [lia | now apply queue_ok_queue].
  - destruct (outside_inbuf_queue _ _ (getAllMessages2_outside data s)) as [Hq Hv].
    split; [lia | now apply queue_ok_queue].
  - destruct (outside_inbuf_queue _ _ (getVectorMessage3_outside data s)) as [Hq Hv].
    split; [lia | now apply queue_ok_queue].
  - destruct (outside_inbuf_queue _ _ (getAllVectorMessages3_outside data s)) as [Hq Hv].
    split; [lia | now apply queue_ok_queue].
  - rewrite handleVectorMessages4_vector. split; [lia|].
    apply queue_ok_queue, handleVectorMessages4_queue.
  - rewrite latency_round_vector. split; [lia|].
    apply latency_round_keeps_queue_ok.
  - split; [cbn; lia | auto].
Qed.

Lemma run_ops_invariant (ops : list op) (s : SocketBase) :
  vector s <= vector (run_ops ops s) /\ (queue_ok s -> queue_ok (run_ops ops s)).
Proof.
  revert s. induction ops as [|o ops IH]; intros s; [split; [cbn; lia | auto]|].
  cbn [run_ops fold_left]. fold (run_ops ops (run_op o s)).
  destruct (run_op_invariant o s) as [H1 H2].
  destruct (IH (run_op o s)) as [I1 I2]. split; [lia | auto].
Qed.

(** C3.  Take two vector sends that return, [c1] and later [c2], on one
    endpoint, each through [sendVectorMessage3] or through any mode of
    [sendVectorMessageWithMode4], with any operations in between.  Each
    advances the counter by exactly one and hands over exactly one frame,
    which carries the value the counter had before; the vector in the frame
    of [c2] is strictly greater than the one in the frame of [c1], and so are
    the vectors returned to the callers. *)
Theorem vectors_strictly_increase (c1 c2 : send_call) (mid : list op)
  (s s1 s3 : SocketBase) (r1 r2 : mode4_result) :
  run_send c1 s = Ret r1 s1 ->
  run_send c2 (run_ops mid s1) = Ret r2 s3 ->
  let s2 := run_ops mid s1 in
  (vector s1 = vector s + 1 /\ vector s3 = vector s2 + 1)
  /\ (map frame_vector (emitted s s1) = [vector s] /\
      map frame_vector (emitted s2 s3) = [vector s2])
  /\ vector s < vector s2
  /\ (forall v1 v2, r1 = Vector v1 -> r2 = Vector v2 ->
                    v1 = vector s /\ v2 = vector s2 /\ v1 < v2).
Proof.
  intros H1 H2 s2.
  destruct (run_send_effect _ _ _ _ H1) as (A1 & A2 & A3).
  destruct (run_send_effect _ _ _ _ H2) as (B1 & B2 & B3).
  destruct (run_ops_invariant mid s1) as [M _]. fold s2 in M, B1, B2, B3.
  split; [split; assumption|]. split; [split; assumption|].
  split; [lia|].
  intros v1 v2 E1 E2. rewrite (A3 _ E1), (B3 _ E2).
  split; [reflexivity|]. split; [reflexivity | lia].
Qed.

Lemma vectors_strictly_increase_witness :
  exists s1 s3,
    run_send (Send3 payload_A 0 true) __init__ = Ret (Vector 0) s1
    /\ run_send (SendMode4 payload_B 0 IOMode.Async None []) (run_ops [OpClock 1%Q] s1)
       = Ret (Vector 1) s3
    /\ map frame_vector (emitted __init__ s1) = [0]
    /\ map frame_vector (emitted (run_ops [OpClock 1%Q] s1) s3) = [1].
Proof.
  eexists. eexists.
  assert (H1 : run_send (Send3 payload_A 0 true) __init__
               = Ret (Vector 0) (state_of (run_send (Send3 payload_A 0 true) __init__)))
    by reflexivity.
  set (s1 := state_of (run_send (Send3 payload_A 0 true) __init__)) in *.
  assert (H2 : run_send (SendMode4 payload_B 0 IOMode.Async None [])
                 (run_ops [OpClock 1%Q] s1)
               = Ret (Vector 1)
                   (state_of (run_send (SendMode4 payload_B 0 IOMode.Async None [])
                                (run_ops [OpClock 1%Q] s1))))
    by reflexivity.
  destruct (vectors_strictly_increase _ _ _ _ _ _ _ _ H1 H2)
    as (_ & (E1 & E2) & _).
  split; [exact H1 | split; [exact H2 | split; [exact E1 | exact E2]]].
Defined.

(** ** The send buffer *)

(** C8, as stated, fails: [send1] leaves the outbound queue and its size
    counter as they were. *)
Lemma send1_does_not_enqueue :
  let s' := send1 (Some payload_A) false __init__ in
  oubuf s' = [] /\ getOutBufferSize1 s' = 0
  /\ getOutBufferSize1 s' <> getOutBufferSize1 __init__ + blen payload_A.
Proof. repeat split. discriminate. Qed.

(** C8, as amended.  At every observation point, that is after any sequence
    of operations on a new endpoint, [getOutBufferSize1()] is the sum of the
    lengths of the chunks in [oubuf].  [send1(data)] appends the time-stamped
    chunk at the tail of the staging list [slow] and adds its length to
    [slowsz]; [oubuf] and [getOutBufferSize1()] stay as they were.  It is the
    latency thread whose first loop appends the staged chunks that are
    overdue, in their order, at the tail of [oubuf] and adds their lengths to
    the counter. *)
Theorem send1_stages_and_size_counts (data : bytes) (block : bool) (ops : list op) :
  let s := run_ops ops __init__ in
  let s' := send1 (Some data) block s in
  getOutBufferSize1 s = total_len (oubuf s)
  /\ slow s' = slow s ++ [(wallclock s, data)]
  /\ slowsz s' = slowsz s + blen data
  /\ oubuf s' = oubuf s
  /\ getOutBufferSize1 s' = getOutBufferSize1 s
  /\ (forall now,
        let due := map snd (List.filter (overdue now) (slow s')) in
        let s'' := (stage_out now (slow s') [] s').2 in
        oubuf s'' = oubuf s ++ due
        /\ getOutBufferSize1 s'' = getOutBufferSize1 s + total_len due).
Proof.
  intros s s'. split; [|repeat split].
  - destruct (run_ops_invariant ops __init__) as [_ H]. apply H. reflexivity.
  - pose proof (stage_out_spec now (slow s') [] s') as (_ & I2 & _). exact I2.
  - pose proof (stage_out_spec now (slow s') [] s') as (_ & _ & I3 & _). exact I3.
Qed.

(** ** Frames through the receive buffer *)

Lemma wire_format_frame (v rv : Z) (p : bytes) :
  wire_format v rv p = frame (be_encode 8 v ++ be_encode 8 rv ++ p).
Proof.
  unfold wire_format, frame, blen. rewrite !length_app, !be_encode_length.
  do 2 f_equal. lia.
Qed.

(** A whole frame at the front of the buffer is cut off, provided a fifth
    byte is there. *)
Lemma cut_frame (payload rest : bytes) :
  blen payload < 2 ^ 32 -> payload ++ rest <> [] ->
  cut (frame payload ++ rest) = Some (payload, rest).
Proof.
  intros Hl Hne. unfold cut, frame.
  assert (L4 : length (be_encode 4 (blen payload)) = 4%nat) by apply be_encode_length.
  assert (Hlen : (4 < length ((be_encode 4 (blen payload) ++ payload) ++ rest))%nat).
  { rewrite <- app_assoc, length_app, L4.
    destruct (payload ++ rest); [contradiction | cbn; lia]. }
  destruct (Nat.ltb_spec 4 (length ((be_encode 4 (blen payload) ++ payload) ++ rest)));
    [|lia].
  rewrite <- !app_assoc.
  rewrite take_app_length' by (symmetry; exact L4).
  rewrite be_decode_encode_small by (unfold blen in *; lia).
  destruct (Z.leb_spec (blen payload)
              (blen (be_encode 4 (blen payload) ++ payload ++ rest) - 4)) as [_|Hgt].
  - unfold blen. rewrite Nat2Z.id.
    rewrite drop_app_length' by (symmetry; exact L4).
    rewrite take_app_length.
    rewrite drop_app_add' by (symmetry; exact L4).
    now rewrite drop_app_length.
  - unfold blen in Hgt. rewrite !length_app, be_encode_length in Hgt. lia.
Qed.

(** C7.  An endpoint whose counter is [v] sends [p] with reply vector [rv]
    through [sendVectorMessage3]: the call returns [v] and hands over the
    bytes [be32(16 + len(p)) || be64(v) || be64(rv) || p] (it does return
    whenever the frame length fits 32 bits); a new endpoint that is fed these
    bytes returns exactly [(v, rv, p)] from [getVectorMessage3]. *)
Theorem vector_roundtrip (p : bytes) (v rv : Z) (block : bool) (s : SocketBase) :
  0 <= v < 2 ^ 64 -> 0 <= rv < 2 ^ 64 -> vector s = v ->
  (16 + blen p < 2 ^ 32 -> exists s', sendVectorMessage3 p rv block s = Ret v s')
  /\ (forall r s', sendVectorMessage3 p rv block s = Ret r s' ->
        r = v
        /\ emitted s s' = [wire_format v rv p]
        /\ getVectorMessage3 (Some (wire_format v rv p)) __init__
           = Ret (Some (v, rv, p)) __init__).
Proof.
  intros Hv Hr <-. split.
  - intros Hl. rewrite sendVectorMessage3_ok by assumption. eauto.
  - intros r s' H.
    pose proof (sendVectorMessage3_inv _ _ _ _ _ _ H) as (_ & _ & Hl).
    rewrite sendVectorMessage3_ok in H by assumption. injection H as <- <-.
    split; [reflexivity|]. split.
    + now rewrite (emitted_app s _ [EvWire (wire_format (vector s) rv p)]).
    + rewrite getVectorMessage3_cut by (reflexivity || now left).
      cbn [default inbuf __init__ BytesIO.content BytesIO.empty app].
      rewrite wire_format_frame.
      rewrite <- (app_nil_r (frame (be_encode 8 (vector s) ++ be_encode 8 rv ++ p))).
      unfold id. rewrite cut_frame.
      * rewrite struct_unpack_pack_QQ by assumption.
        unfold hdrsz_QQ. rewrite app_assoc, drop_app_length'.
        -- reflexivity.
        -- rewrite length_app, !be_encode_length. reflexivity.
      * unfold blen. rewrite !length_app, !be_encode_length.
        unfold blen in Hl. lia.
      * rewrite app_nil_r. intros E. apply (f_equal length) in E.
        rewrite !length_app, !be_encode_length in E. cbn in E. lia.
Qed.

Lemma vector_roundtrip_witness :
  sendVectorMessage3 payload_A 9 true __init__
  = Ret 0 (state_of (sendVectorMessage3 payload_A 9 true __init__))
  /\ getVectorMessage3 (Some (wire_format 0 9 payload_A)) __init__
     = Ret (Some (0, 9, payload_A)) __init__.
Proof.
  assert (Hv : 0 <= 0 < 2 ^ 64) by lia.
  assert (Hr : 0 <= 9 < 2 ^ 64) by lia.
  destruct (vector_roundtrip payload_A 0 9 true __init__ Hv Hr eq_refl) as [_ H].
  destruct (H 0 (state_of (sendVectorMessage3 payload_A 9 true __init__)) eq_refl)
    as (_ & _ & E).
  split; [reflexivity | exact E].
Defined.

Lemma cut_app (b d m b' : bytes) :
  cut b = Some (m, b') -> cut (b ++ d) = Some (m, b' ++ d).
Proof.
  unfold cut, blen.
  destruct (Nat.ltb_spec 4 (length b)) as [H4|]; [|discriminate].
  destruct (Z.leb_spec (be_decode (take 4 b)) (Z.of_nat (length b) - 4)) as [Hsz|];
    [|discriminate].
  intros [= <- <-].
  pose proof (be_decode_nonneg (take 4 b)) as Hnn.
  destruct (Nat.ltb_spec 4 (length (b ++ d))) as [_|Hge];
    [|rewrite length_app in Hge; lia].
  rewrite take_app_le by lia.
  destruct (Z.leb_spec (be_decode (take 4 b)) (Z.of_nat (length (b ++ d)) - 4))
    as [_|Hgt]; [|rewrite length_app in Hgt; lia].
  rewrite !drop_app_le by lia.
  rewrite take_app_le by (rewrite length_drop; lia).
  reflexivity.
Qed.

Lemma parses_app (b d r1 r2 : bytes) (ms1 ms2 : list bytes) :
  parses b ms1 r1 -> parses (r1 ++ d) ms2 r2 -> parses (b ++ d) (ms1 ++ ms2) r2.
Proof.
  intros H. induction H as [buf Hc | buf m buf' msgs rest Hc _ IH]; intros H2.
  - exact H2.
  - cbn [app]. eapply parses_cut; [apply cut_app, Hc | auto].
Qed.

Lemma parses_total (buf : bytes) : exists msgs rest, parses buf msgs rest.
Proof.
  remember (length buf) as n eqn:Hn. revert buf Hn.
  induction n as [n IH] using lt_wf_ind. intros buf ->.
  destruct (cut buf) as [[m buf']|] eqn:Hc.
  - pose proof (cut_length _ _ _ Hc) as Hl.
    destruct (IH (length buf') ltac:(lia) buf' eq_refl) as (msgs & rest & Hp).
    exists (m :: msgs), rest. eapply parses_cut; eauto.
  - exists [], buf. now constructor.
Qed.

Lemma parses_fun (buf r1 r2 : bytes) (ms1 ms2 : list bytes) :
  parses buf ms1 r1 -> parses buf ms2 r2 -> ms1 = ms2 /\ r1 = r2.
Proof.
  intros H. revert ms2 r2.
  induction H as [buf Hc | buf m buf' msgs rest Hc _ IH]; intros ms2 r2 H2;
    inversion H2; subst; try congruence.
  - auto.
  - assert (E : (m, buf') = (m0, buf'0)) by congruence. injection E as <- <-.
    destruct (IH _ _ H0) as [-> ->]. auto.
Qed.

Lemma parses_rest_stuck (buf rest : bytes) (msgs : list bytes) :
  parses buf msgs rest -> cut rest = None.
Proof. induction 1; auto. Qed.

Lemma settled_coherent (s : SocketBase) : settled s -> tidy s /\ coherent s.
Proof.
  intros (Ht & Hc & _). split; [exact Ht|].
  unfold coherent, pending in *.
  destruct (Nat.ltb_spec 4 (length (BytesIO.content (inbuf s)))); [right | left]; auto.
Qed.

Lemma settled_with_inbuf (rest : bytes) (s : SocketBase) :
  cut rest = None -> settled (with_inbuf rest (pending rest) s).
Proof. intros H. repeat split. exact H. Qed.

(** [getAllMessages2] returns what [parses] finds in the buffer with the new
    data appended, and keeps the rest. *)
Lemma getAllMessages2_parses (data : option bytes) (s : SocketBase)
  (msgs : list bytes) (rest : bytes) :
  tidy s -> coherent s ->
  parses (BytesIO.content (inbuf s) ++ default [] data) msgs rest ->
  getAllMessages2 data s = Ret msgs (with_inbuf rest (pending rest) s).
Proof.
  intros Ht Hc H.
  remember (BytesIO.content (inbuf s) ++ default [] data) as buf eqn:Hb.
  revert s data Ht Hc Hb.
  induction H as [buf Hcut | buf m buf' msgs rest Hcut _ IH]; intros s data Ht Hc ->;
    rewrite getAllMessages2_unfold, getMessage2_cut by assumption;
    cbv zeta; rewrite Hcut; cbn [bind].
  - reflexivity.
  - rewrite (IH (with_inbuf buf' None s) None).
    + reflexivity.
    + apply with_inbuf_tidy.
    + apply coherent_fresh.
    + cbn. now rewrite app_nil_r.
Qed.

(** Feeding a stream in chunks gives what [parses] finds in the whole of
    it. *)
Lemma feed_all_parses (chunks : list bytes) (s : SocketBase)
  (msgs : list bytes) (rest : bytes) :
  settled s ->
  parses (BytesIO.content (inbuf s) ++ concat chunks) msgs rest ->
  feed_all chunks s = Ret msgs (with_inbuf rest (pending rest) s).
Proof.
  revert s msgs. induction chunks as [|c chunks IH]; intros s msgs Hs H.
  - cbn [concat] in H. rewrite app_nil_r in H.
    destruct Hs as (Ht & Hc & Hcut).
    destruct (parses_fun _ _ _ _ _ H (parses_stop _ Hcut)) as [-> ->].
    cbn [feed_all]. rewrite <- Hc. f_equal. now apply tidy_with_inbuf.
  - destruct (settled_coherent s Hs) as [Ht Hc].
    destruct (parses_total (BytesIO.content (inbuf s) ++ c)) as (ms1 & r1 & P1).
    destruct (parses_total (r1 ++ concat chunks)) as (ms2 & r2 & P2).
    pose proof (parses_app _ _ _ _ _ _ P1 P2) as P.
    cbn [concat] in H. rewrite app_assoc in H.
    destruct (parses_fun _ _ _ _ _ H P) as [-> ->].
    cbn [feed_all].
    rewrite (getAllMessages2_parses (Some c) s ms1 r1 Ht Hc P1). cbn [bind].
    rewrite (IH (with_inbuf r1 (pending r1) s) ms2).
    + reflexivity.
    + apply settled_with_inbuf. eapply parses_rest_stuck, P1.
    + exact P2.
Qed.

Lemma frame_length (p : bytes) : length (frame p) = (4 + length p)%nat.
Proof. unfold frame. now rewrite length_app, be_encode_length. Qed.

(** A run of frames parses into its payloads, as long as something follows
    the last header: a payload byte or further buffered bytes. *)
Lemma parses_frames (ps : list bytes) (tail rest : bytes) (msgs : list bytes) :
  Forall (fun p => blen p < 2 ^ 32) ps ->
  parses tail msgs rest ->
  tail <> [] \/ last ps <> Some [] ->
  parses (concat (map frame ps) ++ tail) (ps ++ msgs) rest.
Proof.
  intros Hps Htail. induction Hps as [|p ps Hp Hps IH]; intros Hne.
  - exact Htail.
  - cbn [map concat app]. rewrite <- app_assoc.
    eapply parses_cut.
    + apply cut_frame; [exact Hp|].
      destruct ps as [|p' ps'].
      * cbn [map concat app]. destruct Hne as [Hne|Hne].
        -- destruct p; [exact Hne | discriminate].
        -- destruct p; [now contradiction Hne | discriminate].
      * intros E. apply (f_equal length) in E.
        cbn [map concat] in E. rewrite !length_app, frame_length in E.
        cbn in E. lia.
    + apply IH. destruct Hne as [Hne|Hne]; [now left|].
      destruct ps as [|p' ps']; [now right|].
      right. now rewrite last_cons_cons in Hne.
Qed.

(** X1.  Frames whose last payload is not empty, concatenated and cut into
    chunks in any way, come out of the receive buffer as the original
    payloads, in order, and leave the buffer as it was at the start. *)
Theorem reassembly (payloads chunks : list bytes) :
  Forall (fun p => blen p < 2 ^ 32) payloads ->
  last payloads <> Some [] ->
  concat chunks = concat (map frame payloads) ->
  feed_all chunks __init__ = Ret payloads __init__.
Proof.
  intros Hps Hlast Hcat.
  assert (P : parses (concat (map frame payloads) ++ []) (payloads ++ []) []).
  { apply parses_frames.
    - exact Hps.
    - now constructor.
    - now right. }
  rewrite !app_nil_r in P.
  rewrite (feed_all_parses chunks __init__ payloads []).
  - reflexivity.
  - repeat split.
  - cbn. now rewrite Hcat.
Qed.

Lemma reassembly_witness :
  feed_all [take 3 (frame [] ++ frame payload_A); drop 3 (frame [] ++ frame payload_A)]
    __init__ = Ret [[]; payload_A] __init__.
Proof.
  apply (reassembly [[]; payload_A]
           [take 3 (frame [] ++ frame payload_A); drop 3 (frame [] ++ frame payload_A)]).
  - repeat constructor.
  - discriminate.
  - reflexivity.
Defined.

(** When the last payload is empty its frame stays in the buffer: all the
    payloads before it come out, and the four header bytes wait for a
    fifth. *)
Lemma reassembly_trailing_empty (payloads chunks : list bytes) :
  Forall (fun p => blen p < 2 ^ 32) payloads ->
  concat chunks = concat (map frame (payloads ++ [[]])) ->
  feed_all chunks __init__ = Ret payloads (with_inbuf (frame []) None __init__).
Proof.
  intros Hps Hcat.
  assert (P : parses (concat (map frame payloads) ++ frame []) (payloads ++ [])
                (frame [])).
  { apply parses_frames.
    - exact Hps.
    - now constructor.
    - left. discriminate. }
  rewrite app_nil_r in P.
  rewrite (feed_all_parses chunks __init__ payloads (frame [])).
  - reflexivity.
  - repeat split.
  - cbn [__init__ inbuf BytesIO.content BytesIO.empty app]. rewrite Hcat.
    rewrite map_app, concat_app. cbn [map concat]. now rewrite app_nil_r.
Qed.

(** C4: the code at a frame of length zero.  The four bytes of the frame
    are fed to a new endpoint in one chunk: nothing is returned and the
    bytes stay in the buffer, where the claim has the empty payload come
    out.  It does come out once one more byte has arrived. *)
Theorem empty_frame_not_emitted :
  frame [] = [byte_of_Z 0; byte_of_Z 0; byte_of_Z 0; byte_of_Z 0]
  /\ feed_all [frame []] __init__ = Ret [] (with_inbuf (frame []) None __init__)
  /\ feed_all [frame []] __init__ <> Ret [[]] __init__
  /\ getAllMessages2 (Some [byte_of_Z 0]) (with_inbuf (frame []) None __init__)
     = Ret [[]] (with_inbuf [byte_of_Z 0] None __init__).
Proof.
  split; [reflexivity|]. split; [reflexivity|]. split; [discriminate|].
  reflexivity.
Qed.

(** * Further properties *)

(** ** The receive buffer, whatever the bytes *)

Lemma be_decode_bound (bs : bytes) : be_decode bs < 256 ^ Z.of_nat (length bs).
Proof.
  induction bs as [|b bs IH] using rev_ind.
  - reflexivity.
  - rewrite be_decode_snoc, length_app, Nat2Z.inj_add, Z.pow_add_r by lia.
    pose proof (Z_of_byte_range b). pose proof (be_decode_nonneg bs).
    change (256 ^ Z.of_nat (length [b])) with 256. nia.
Qed.

Lemma byte_of_Z_mod (z : Z) : byte_of_Z z = byte_of_Z (z mod 256).
Proof. unfold byte_of_Z. now rewrite Z.mod_mod. Qed.

Lemma be_encode_decode (bs : bytes) : be_encode (length bs) (be_decode bs) = bs.
Proof.
  induction bs as [|b bs IH] using rev_ind.
  - reflexivity.
  - rewrite length_app, Nat.add_comm. cbn [length Nat.add be_encode].
    rewrite be_decode_snoc. pose proof (Z_of_byte_range b).
    replace ((be_decode bs * 256 + Z_of_byte b) / 256) with (be_decode bs)
      by (apply Z.div_unique with (r := Z_of_byte b); lia).
    rewrite IH. f_equal. f_equal.
    rewrite byte_of_Z_mod.
    replace ((be_decode bs * 256 + Z_of_byte b) mod 256) with (Z_of_byte b).
    + apply byte_of_Z_of_byte.
    + rewrite (Z.add_comm (be_decode bs * 256)), Z.mod_add by lia.
      symmetry. apply Z.mod_small. lia.
Qed.

(** What [cut] takes off the buffer is one whole frame. *)
Lemma cut_inv (buf m buf' : bytes) :
  cut buf = Some (m, buf') -> buf = frame m ++ buf' /\ blen m < 2 ^ 32.
Proof.
  unfold cut, blen.
  destruct (Nat.ltb_spec 4 (length buf)) as [H4|]; [|discriminate].
  destruct (Z.leb_spec (be_decode (take 4 buf)) (Z.of_nat (length buf) - 4)) as [Hsz|];
    [|discriminate].
  intros [= <- <-].
  pose proof (be_decode_nonneg (take 4 buf)) as Hnn.
  pose proof (be_decode_bound (take 4 buf)) as Hb.
  assert (L4 : length (take 4 buf) = 4%nat) by (rewrite length_take; lia).
  rewrite L4 in Hb.
  assert (Lm : length (take (Z.to_nat (be_decode (take 4 buf))) (drop 4 buf))
               = Z.to_nat (be_decode (take 4 buf)))
    by (rewrite length_take, length_drop; lia).
  split.
  - unfold frame, blen. rewrite Lm, Z2Nat.id by lia.
    rewrite <- L4 at 1. rewrite be_encode_decode, <- app_assoc.
    change (S (S (S (S (Z.to_nat (be_decode (take 4 buf)))))))
      with (4 + Z.to_nat (be_decode (take 4 buf)))%nat.
    rewrite <- drop_drop, take_drop, take_drop. reflexivity.
  - rewrite Lm, Z2Nat.id by lia. exact Hb.
Qed.

Lemma parses_conserve (buf rest : bytes) (msgs : list bytes) :
  parses buf msgs rest ->
  buf = concat (map frame msgs) ++ rest /\ Forall (fun m => blen m < 2 ^ 32) msgs.
Proof.
  induction 1 as [buf Hc | buf m buf' msgs rest Hc _ [IH1 IH2]].
  - split; [reflexivity | constructor].
  - apply cut_inv in Hc as [-> Hm]. cbn [map concat].
    rewrite <- app_assoc, <- IH1. split; [reflexivity | now constructor].
Qed.

Lemma settled_init : settled __init__.
Proof. repeat split. Qed.

(** X2.  How a byte stream is cut into reads does not matter: on an endpoint
    whose receive side is at rest, two sequences of chunks with the same
    concatenation make [getAllMessages2] return the same messages and leave
    the same endpoint. *)
Theorem chunking_irrelevant (chunks chunks' : list bytes) (s : SocketBase) :
  settled s -> concat chunks = concat chunks' ->
  feed_all chunks s = feed_all chunks' s.
Proof.
  intros Hs E.
  destruct (parses_total (BytesIO.content (inbuf s) ++ concat chunks))
    as (msgs & rest & P).
  rewrite (feed_all_parses chunks s msgs rest Hs P).
  rewrite E in P. now rewrite (feed_all_parses chunks' s msgs rest Hs P).
Qed.

Lemma chunking_irrelevant_witness :
  feed_all (map (fun b => [b]) (frame payload_A ++ frame payload_B)) __init__
  = feed_all [frame payload_A ++ frame payload_B] __init__.
Proof.
  apply (chunking_irrelevant
           (map (fun b => [b]) (frame payload_A ++ frame payload_B))
           [frame payload_A ++ frame payload_B] __init__).
  - apply settled_init.
  - reflexivity.
Defined.

(** X3.  The receive side neither raises nor loses, invents or reorders
    bytes, whatever it is fed: starting at rest, any sequence of reads makes
    [getAllMessages2] return messages whose frames, followed by what stays in
    the buffer, are exactly the bytes that were there and that came in; the
    receive side is at rest again, and nothing else of the endpoint has
    changed. *)
Theorem receive_conserves_bytes (chunks : list bytes) (s : SocketBase) :
  settled s ->
  exists msgs s',
    feed_all chunks s = Ret msgs s'
    /\ BytesIO.content (inbuf s) ++ concat chunks
       = concat (map frame msgs) ++ BytesIO.content (inbuf s')
    /\ settled s'
    /\ outside_inbuf s' = outside_inbuf s.
Proof.
  intros Hs.
  destruct (parses_total (BytesIO.content (inbuf s) ++ concat chunks))
    as (msgs & rest & P).
  exists msgs, (with_inbuf rest (pending rest) s).
  split; [now apply feed_all_parses|]. split; [|split].
  - apply parses_conserve in P as [P _]. exact P.
  - apply settled_with_inbuf. eapply parses_rest_stuck, P.
  - reflexivity.
Qed.

Lemma receive_conserves_bytes_witness :
  exists msgs s',
    feed_all [take 7 (frame payload_A ++ frame payload_B);
              drop 7 (frame payload_A ++ frame payload_B)] __init__ = Ret msgs s'
    /\ BytesIO.content (inbuf __init__) ++
       concat [take 7 (frame payload_A ++ frame payload_B);
               drop 7 (frame payload_A ++ frame payload_B)]
       = concat (map frame msgs) ++ BytesIO.content (inbuf s')
    /\ settled s'
    /\ outside_inbuf s' = outside_inbuf __init__.
Proof.
  apply (receive_conserves_bytes
           [take 7 (frame payload_A ++ frame payload_B);
            drop 7 (frame payload_A ++ frame payload_B)] __init__).
  apply settled_init.
Defined.

(** ** Layer 2 from end to end *)

Lemma sendMessage2_ok (msg : bytes) (block : bool) (s : SocketBase) :
  blen msg < 2 ^ 32 ->
  sendMessage2 msg block s = Ret tt (send1 (Some (frame msg)) block s).
Proof.
  intros H. unfold sendMessage2. rewrite struct_pack_I_Some; [reflexivity|].
  unfold blen in *. lia.
Qed.

Lemma send_all2_history (msgs : list bytes) (s : SocketBase) :
  Forall (fun m => blen m < 2 ^ 32) msgs ->
  history (run_ops (map (fun m => OpSendMessage2 m true) msgs) s)
  = history s ++ map (fun m => EvWire (frame m)) msgs.
Proof.
  intros H. revert s. induction H as [|m msgs Hm _ IH]; intros s.
  - cbn. now rewrite app_nil_r.
  - cbn [map run_ops fold_left].
    change (fold_left (fun s o => run_op o s) ?l ?x) with (run_ops l x).
    rewrite IH. cbn [run_op]. rewrite sendMessage2_ok by exact Hm.
    cbn. now rewrite <- app_assoc.
Qed.

Lemma wire_of_wires (l : list bytes) : wire_of (map EvWire l) = l.
Proof. induction l as [|x l IH]; [reflexivity|]. cbn. now f_equal. Qed.

(** X4.  Layer 2 over a link: when an endpoint sends messages with
    [sendMessage2], the last of them not empty, and the bytes it has handed
    over reach a new endpoint cut into reads in any way, [getAllMessages2]
    on that endpoint returns the messages sent, in order, and its buffer is
    empty again. *)
Theorem layer2_link (msgs chunks : list bytes) (s : SocketBase) :
  Forall (fun m => blen m < 2 ^ 32) msgs ->
  last msgs <> Some [] ->
  let s' := run_ops (map (fun m => OpSendMessage2 m true) msgs) s in
  concat chunks = concat (emitted s s') ->
  emitted s s' = map frame msgs
  /\ feed_all chunks __init__ = Ret msgs __init__.
Proof.
  intros Hm Hl s' Hc.
  assert (E : emitted s s' = map frame msgs).
  { unfold emitted. subst s'. rewrite send_all2_history by exact Hm.
    rewrite drop_app_length. rewrite <- (map_map frame EvWire).
    apply wire_of_wires. }
  split; [exact E|].
  rewrite E in Hc.
  assert (P : parses (concat (map frame msgs) ++ []) (msgs ++ []) []).
  { apply parses_frames; [exact Hm | now constructor | now right]. }
  rewrite !app_nil_r in P.
  rewrite (feed_all_parses chunks __init__ msgs [] settled_init).
  - reflexivity.
  - cbn. now rewrite Hc.
Qed.

Lemma layer2_link_witness :
  feed_all [take 5 (frame [] ++ frame payload_B); drop 5 (frame [] ++ frame payload_B)]
    __init__ = Ret [[]; payload_B] __init__.
Proof.
  apply (layer2_link [[]; payload_B]
           [take 5 (frame [] ++ frame payload_B); drop 5 (frame [] ++ frame payload_B)]
           __init__).
  - repeat constructor.
  - discriminate.
  - reflexivity.
Defined.

(** ** Layer 3 on the receive side *)

Lemma unpack_split (m : bytes) :
  (16 <= length m)%nat ->
  struct_unpack_from_QQ m = Some (be_decode (take 8 m), be_decode (take 8 (drop 8 m))).
Proof.
  intros H. unfold struct_unpack_from_QQ.
  destruct (Nat.leb_spec 16 (length m)); [reflexivity | lia].
Qed.

Lemma unpack_short (m : bytes) :
  (length m < 16)%nat -> struct_unpack_from_QQ m = None.
Proof.
  intros H. unfold struct_unpack_from_QQ.
  destruct (Nat.leb_spec 16 (length m)); [lia | reflexivity].
Qed.

Lemma vector_payload_length (m : vmsg) :
  length (vector_payload m) = (16 + length (vm_payload m))%nat.
Proof. unfold vector_payload. rewrite !length_app, !be_encode_length. lia. Qed.

Lemma wire_frame (m : vmsg) : wire m = frame (vector_payload m).
Proof. apply wire_format_frame. Qed.

Lemma split_vector_payload (m : vmsg) :
  sendable m -> split_vector (vector_payload m) = m.
Proof.
  intros (Hv & Hr & _). destruct m as [[v rv] p].
  unfold split_vector, vector_payload, hdrsz_QQ in *.
  cbn [vm_vector vm_rvector vm_payload fst snd] in *.
  rewrite take_app_length' by (symmetry; apply be_encode_length).
  rewrite drop_app_length' by (symmetry; apply be_encode_length).
  rewrite take_app_length' by (symmetry; apply be_encode_length).
  rewrite app_assoc, drop_app_length'
    by (rewrite length_app, !be_encode_length; reflexivity).
  now rewrite !be_decode_encode_small.
Qed.

(** [getAllVectorMessages3] splits what [parses] finds, as long as every
    message holds the two vectors. *)
Lemma getAllVectorMessages3_parses (data : option bytes) (s : SocketBase)
  (msgs : list bytes) (rest : bytes) :
  tidy s -> coherent s ->
  parses (BytesIO.content (inbuf s) ++ default [] data) msgs rest ->
  Forall (fun m => (16 <= length m)%nat) msgs ->
  getAllVectorMessages3 data s
  = Ret (map split_vector msgs) (with_inbuf rest (pending rest) s).
Proof.
  intros Ht Hc H.
  remember (BytesIO.content (inbuf s) ++ default [] data) as buf eqn:Hb.
  revert s data Ht Hc Hb.
  induction H as [buf Hcut | buf m buf' msgs rest Hcut _ IH];
    intros s data Ht Hc -> Hlong;
    rewrite getAllVectorMessages3_unfold, getVectorMessage3_cut by assumption;
    cbv zeta; rewrite Hcut.
  - reflexivity.
  - inversion Hlong as [|? ? Hm Hmsgs]; subst.
    rewrite unpack_split by exact Hm. cbn [bind].
    rewrite (IH (with_inbuf buf' None s) None).
    + reflexivity.
    + apply with_inbuf_tidy.
    + apply coherent_fresh.
    + cbn. now rewrite app_nil_r.
    + exact Hmsgs.
Qed.

Lemma parses_split (b d rest : bytes) (msgs : list bytes) :
  parses (b ++ d) msgs rest ->
  exists ms1 r1 ms2,
    parses b ms1 r1 /\ parses (r1 ++ d) ms2 rest /\ msgs = ms1 ++ ms2.
Proof.
  intros P.
  destruct (parses_total b) as (ms1 & r1 & P1).
  destruct (parses_total (r1 ++ d)) as (ms2 & r2 & P2).
  destruct (parses_fun _ _ _ _ _ P (parses_app _ _ _ _ _ _ P1 P2)) as [-> ->].
  eauto 10.
Qed.

Lemma feed_all_vectors_parses (chunks : list bytes) (s : SocketBase)
  (msgs : list bytes) (rest : bytes) :
  settled s ->
  parses (BytesIO.content (inbuf s) ++ concat chunks) msgs rest ->
  Forall (fun m => (16 <= length m)%nat) msgs ->
  feed_all_vectors chunks s
  = Ret (map split_vector msgs) (with_inbuf rest (pending rest) s).
Proof.
  revert s msgs. induction chunks as [|c chunks IH]; intros s msgs Hs H Hlong.
  - cbn [concat] in H. rewrite app_nil_r in H.
    destruct Hs as (Ht & Hc & Hcut).
    destruct (parses_fun _ _ _ _ _ H (parses_stop _ Hcut)) as [-> ->].
    cbn [feed_all_vectors map]. rewrite <- Hc. f_equal. now apply tidy_with_inbuf.
  - destruct (settled_coherent s Hs) as [Ht Hc].
    cbn [concat] in H. rewrite app_assoc in H.
    destruct (parses_split _ _ _ _ H) as (ms1 & r1 & ms2 & P1 & P2 & ->).
    apply Forall_app in Hlong as [L1 L2].
    cbn [feed_all_vectors].
    rewrite (getAllVectorMessages3_parses (Some c) s ms1 r1 Ht Hc P1 L1). cbn [bind].
    rewrite (IH (with_inbuf r1 (pending r1) s) ms2).
    + now rewrite map_app.
    + apply settled_with_inbuf. eapply parses_rest_stuck, P1.
    + exact P2.
    + exact L2.
Qed.

Lemma parses_wires (ms : list vmsg) :
  Forall sendable ms ->
  parses (concat (map wire ms)) (map vector_payload ms) [].
Proof.
  intros H.
  assert (P : parses (concat (map frame (map vector_payload ms)) ++ [])
                (map vector_payload ms ++ []) []).
  { apply parses_frames.
    - apply Forall_map. eapply Forall_impl; [exact H|].
      intros m (_ & _ & Hl). unfold blen in *. rewrite vector_payload_length. lia.
    - now constructor.
    - right. intros Hl. apply last_Some in Hl as [l' E].
      assert (Hin : In [] (map vector_payload (map id ms))).
      { rewrite map_id, E. apply in_or_app. right. now left. }
      rewrite map_id in Hin. apply in_map_iff in Hin as (m & Em & _).
      apply (f_equal length) in Em. rewrite vector_payload_length in Em.
      discriminate Em. }
  rewrite !app_nil_r, map_map in P.
  erewrite map_ext; [exact P|]. intros m. apply wire_frame.
Qed.

(** X5.  Layer 3 over a link: vector messages that fit the wire format,
    concatenated as [sendVectorMessage3] lays them out and cut into reads in
    any way (also in the middle of a 16-byte header), come out of
    [getAllVectorMessages3] on a new endpoint as the same triples, in
    order, and leave its buffer empty. *)
Theorem vector_reassembly (ms : list vmsg) (chunks : list bytes) :
  Forall sendable ms ->
  concat chunks = concat (map wire ms) ->
  feed_all_vectors chunks __init__ = Ret ms __init__.
Proof.
  intros Hms Hc.
  rewrite (feed_all_vectors_parses chunks __init__ (map vector_payload ms) []
             settled_init).
  - rewrite map_map. f_equal. rewrite <- (map_id ms) at 2.
    apply map_ext_Forall. eapply Forall_impl; [exact Hms|].
    intros m Hm. now apply split_vector_payload.
  - cbn. rewrite Hc. now apply parses_wires.
  - apply Forall_map. apply Forall_forall. intros m _.
    rewrite vector_payload_length. lia.
Qed.

Lemma vector_reassembly_witness :
  feed_all_vectors
    [take 9 (wire (3, 0, payload_A) ++ wire (4, 3, []));
     drop 9 (wire (3, 0, payload_A) ++ wire (4, 3, []))] __init__
  = Ret [(3, 0, payload_A); (4, 3, [])] __init__.
Proof.
  apply (vector_reassembly [(3, 0, payload_A); (4, 3, [])]
           [take 9 (wire (3, 0, payload_A) ++ wire (4, 3, []));
            drop 9 (wire (3, 0, payload_A) ++ wire (4, 3, []))]).
  - repeat constructor; cbn; lia.
  - reflexivity.
Defined.

Lemma short_frame_raises_from (ms : list vmsg) (m : bytes) (data : option bytes)
  (s : SocketBase) :
  tidy s -> coherent s ->
  BytesIO.content (inbuf s) ++ default [] data = concat (map wire ms) ++ frame m ->
  Forall sendable ms -> m <> [] -> (length m < 16)%nat ->
  getAllVectorMessages3 data s = Raise StructError (with_inbuf [] None s).
Proof.
  intros Ht Hc Hb Hms Hne Hshort. revert s data Ht Hc Hb.
  induction Hms as [|x ms Hx _ IH]; intros s data Ht Hc Hb;
    rewrite getAllVectorMessages3_unfold, getVectorMessage3_cut by assumption;
    cbv zeta; rewrite Hb; cbn [map concat app].
  - rewrite <- (app_nil_r (frame m)), cut_frame.
    + rewrite unpack_short by exact Hshort. reflexivity.
    + unfold blen. lia.
    + now rewrite app_nil_r.
  - rewrite wire_frame, <- app_assoc, cut_frame.
    + rewrite unpack_split by (rewrite vector_payload_length; lia).
      cbn [bind].
      rewrite (IH (with_inbuf (concat (map wire ms) ++ frame m) None s) None).
      * reflexivity.
      * apply with_inbuf_tidy.
      * apply coherent_fresh.
      * cbn. now rewrite app_nil_r.
    + destruct Hx as (_ & _ & Hl). unfold blen in *.
      rewrite vector_payload_length. lia.
    + intros E. apply (f_equal length) in E.
      rewrite length_app, vector_payload_length in E. discriminate E.
Qed.

(** X6.  A frame too short to hold the two vectors makes
    [getAllVectorMessages3] raise [struct.error], and the messages before it
    in the same read are lost with it: they have been taken out of the
    buffer, which is left empty, and are not returned. *)
Theorem short_frame_loses_batch (ms : list vmsg) (m : bytes) :
  Forall sendable ms -> m <> [] -> (length m < 16)%nat ->
  getAllVectorMessages3 (Some (concat (map wire ms) ++ frame m)) __init__
  = Raise StructError __init__.
Proof.
  intros Hms Hne Hshort.
  now rewrite (short_frame_raises_from ms m (Some (concat (map wire ms) ++ frame m))
                 __init__) by (reflexivity || now left || assumption).
Qed.

Lemma short_frame_loses_batch_witness :
  getAllVectorMessages3 (Some (concat (map wire [(3, 0, payload_A)]) ++ frame payload_B))
    __init__
  = Raise StructError __init__.
Proof.
  apply (short_frame_loses_batch [(3, 0, payload_A)] payload_B).
  - repeat constructor; cbn; lia.
  - discriminate.
  - cbn. lia.
Defined.

(** ** The dispatcher and the two tables *)

Lemma no_new_entries_refl s : no_new_entries s s.
Proof. split; auto. Qed.

Lemma no_new_entries_trans s1 s2 s3 :
  no_new_entries s1 s2 -> no_new_entries s2 s3 -> no_new_entries s1 s3.
Proof. intros [A1 A2] [B1 B2]. split; eauto. Qed.

Lemma dispatch_no_new_entries (rvector : option Z) (msgs : list vmsg)
  (s : SocketBase) (ret : option vmsg) :
  no_new_entries s (fst (fold_left (dispatch_msg rvector) msgs (s, ret))).
Proof.
  revert s ret. induction msgs as [|x msgs IH]; intros s ret;
    [apply no_new_entries_refl|].
  cbn [fold_left].
  destruct (dispatch_msg_cases rvector s ret x) as
    [(Hm & ->) | [(Hm & Hk & ->) | [(Hm & _ & cb & Hcb & ->) | (Hm & _ & _ & ->)]]];
    try apply IH.
  - eapply no_new_entries_trans; [|apply IH]. split; [|auto].
    intros k. cbn. destruct (decide (vm_rvector x = k)) as [<-|Hne].
    + auto.
    + now rewrite lookup_insert_ne.
  - eapply no_new_entries_trans; [|apply IH]. split; [auto|].
    intros k c. cbn. destruct (decide (vm_rvector x = k)) as [<-|Hne].
    + now rewrite lookup_delete_eq.
    + now rewrite lookup_delete_ne.
Qed.

Lemma service_no_new_entries (rvector : option Z) (c : cycle) (s : SocketBase) :
  no_new_entries s (state_of (service rvector c s)).
Proof.
  unfold service. destruct (sel_e c); [apply no_new_entries_refl|].
  set (data := if sel_r c then _ else None).
  replace (if sel_w c && (0 <? getOutBufferSize1 s) then send1 None false s else s)
    with s by (now destruct (sel_w c && _)).
  pose proof (getAllVectorMessages3_outside data s) as Ho.
  assert (H1 : no_new_entries s (state_of (getAllVectorMessages3 data s))).
  { injection Ho as _ _ _ Hk Hcb _ _ _ _. unfold no_new_entries.
    rewrite Hk, Hcb. auto. }
  destruct (getAllVectorMessages3 data s) as [msgs s1|e s1|s1];
    cbn [bind state_of] in *; try exact H1.
  pose proof (dispatch_no_new_entries rvector msgs s1 None) as D. unfold dispatch.
  destruct (fold_left (dispatch_msg rvector) msgs (s1, None)) as [s2 ret].
  cbn [fst state_of] in *. eapply no_new_entries_trans; eauto.
Qed.

Lemma handle_loop_no_new_entries (rvector : option Z) (block : bool)
  (world : list cycle) (s : SocketBase) :
  no_new_entries s (state_of (handle_loop rvector block world s)).
Proof.
  revert s. induction world as [|c world IH]; intros s; cbn [handle_loop].
  - destruct block; [apply no_new_entries_refl | apply service_no_new_entries].
  - pose proof (service_no_new_entries rvector c s) as H.
    destruct (service rvector c s) as [[r|] s1|e s1|s1]; cbn [bind state_of] in *;
      try exact H.
    destruct block; [|exact H]. eapply no_new_entries_trans; eauto.
Qed.

(** X7.  [handleVectorMessages4] never puts an entry into [keepresult] or
    [callback] and never swaps a callback for another, however it ends:
    every slot and every callback present afterwards was there before.
    Entries come from [sendVectorMessageWithMode4] alone. *)
Theorem handle_adds_no_entry (rvector : option Z) (block : bool)
  (world : list cycle) (s : SocketBase) :
  no_new_entries s (state_of (handleVectorMessages4 rvector block world s)).
Proof.
  unfold handleVectorMessages4.
  destruct rvector as [r|]; [|apply handle_loop_no_new_entries].
  destruct (keepresult s !! r) as [[ret|]|] eqn:E;
    try apply handle_loop_no_new_entries.
  split; [|auto]. intros k. cbn. destruct (decide (r = k)) as [<-|Hne].
  - now rewrite E.
  - now rewrite lookup_delete_ne.
Qed.

(** X8.  Replies that nobody waits for are dropped without a trace, and do
    not get in the way of the one that is awaited: a batch of messages whose
    [rv] is neither awaited nor known to either table, followed by a reply to
    the awaited vector, leaves the endpoint as it was and returns that
    reply. *)
Theorem unknown_replies_are_dropped (k : Z) (junk : list vmsg) (m : vmsg)
  (s : SocketBase) :
  Forall (fun x => vm_rvector x <> k /\ keepresult s !! vm_rvector x = None
                   /\ callback s !! vm_rvector x = None) junk ->
  vm_rvector m = k ->
  dispatch (Some k) junk s = (s, None)
  /\ dispatch (Some k) (junk ++ [m]) s = (s, Some m).
Proof.
  intros Hj Hm.
  assert (J : dispatch (Some k) junk s = (s, None)).
  { unfold dispatch. generalize (@None vmsg) as ret.
    induction Hj as [|x junk (Hx & Hkx & Hcx) _ IH]; intros ret; [reflexivity|].
    cbn [fold_left].
    destruct (dispatch_msg_cases (Some k) s ret x) as
      [(Hy & _) | [(_ & Hk & _) | [(_ & _ & cb & Hcb & _) | (_ & _ & _ & ->)]]].
    - congruence.
    - rewrite Hkx in Hk. now destruct Hk.
    - congruence.
    - apply IH. }
  split; [exact J|].
  rewrite dispatch_app, J. cbn [fold_left].
  destruct (dispatch_msg_cases (Some k) s None m) as [(_ & ->) | [(H & _) | [(H & _) | (H & _)]]];
    congruence.
Qed.

Lemma unknown_replies_are_dropped_witness :
  dispatch (Some 0) [(1, 5, payload_A)] __init__ = (__init__, None)
  /\ dispatch (Some 0) ([(1, 5, payload_A)] ++ [(2, 0, payload_B)]) __init__
     = (__init__, Some (2, 0, payload_B)).
Proof.
  apply (unknown_replies_are_dropped 0 [(1, 5, payload_A)] (2, 0, payload_B) __init__).
  - repeat constructor. discriminate.
  - reflexivity.
Defined.

(** X9.  A callback fires once.  When a batch consists of replies to one
    vector that has a callback registered (and no slot, and is not the one
    awaited), the callback is invoked with the first reply and removed; the
    replies after it are discarded. *)
Theorem callback_fires_once (k : Z) (cb : cb_record) (other : option Z)
  (m : vmsg) (rest : list vmsg) (s : SocketBase) :
  callback s !! k = Some cb -> keepresult s !! k = None -> other <> Some k ->
  Forall (fun x => vm_rvector x = k) (m :: rest) ->
  dispatch other (m :: rest) s
  = (log (EvInvoke cb (vm_vector m) k (vm_payload m))
         (set_callback (delete k (callback s)) s), None).
Proof.
  intros Hcb Hk Ho Hall. inversion Hall as [|? ? Hm Hrest]; subst.
  unfold dispatch. cbn [fold_left].
  destruct (dispatch_msg_cases other s None m) as
    [(Hy & _) | [(_ & Hs & _) | [(_ & _ & c & Hc & ->) | (_ & _ & Hc & _)]]].
  - congruence.
  - rewrite Hk in Hs. now destruct Hs.
  - assert (c = cb) by congruence. subst c.
    set (s1 := log _ _).
    assert (H1 : callback s1 !! vm_rvector m = None) by apply lookup_delete_eq.
    assert (H2 : keepresult s1 !! vm_rvector m = None) by exact Hk.
    clearbody s1. clear Hall. induction Hrest as [|x rest Hx _ IH]; [reflexivity|].
    cbn [fold_left].
    destruct (dispatch_msg_cases other s1 None x) as
      [(Hy & _) | [(_ & Hs & _) | [(_ & _ & c & Hc' & _) | (_ & _ & _ & ->)]]].
    + congruence.
    + rewrite Hx, H2 in Hs. now destruct Hs.
    + congruence.
    + exact IH.
  - congruence.
Qed.

Lemma callback_fires_once_witness :
  let s := set_callback (<[4 := mk_cb 1 2]> (callback __init__)) __init__ in
  dispatch None [(7, 4, payload_A); (8, 4, payload_B)] s
  = (log (EvInvoke (mk_cb 1 2) 7 4 payload_A)
         (set_callback (delete 4 (callback s)) s), None).
Proof.
  apply (callback_fires_once 4 (mk_cb 1 2) None (7, 4, payload_A) [(8, 4, payload_B)]).
  - reflexivity.
  - reflexivity.
  - discriminate.
  - repeat constructor.
Defined.

(** ** Servicing the socket *)

Lemma settled_fix (s : SocketBase) :
  settled s ->
  with_inbuf (BytesIO.content (inbuf s)) (pending (BytesIO.content (inbuf s))) s = s.
Proof. intros (Ht & Hc & _). rewrite <- Hc. symmetry. now apply tidy_with_inbuf. Qed.

Lemma handle_not_stored (rvector : option Z) (block : bool) (world : list cycle)
  (s : SocketBase) :
  nothing_stored rvector s ->
  handleVectorMessages4 rvector block world s = handle_loop rvector block world s.
Proof.
  intros H. unfold handleVectorMessages4.
  destruct rvector as [r|]; [|reflexivity].
  destruct (keepresult s !! r) as [[ret|]|] eqn:E; try reflexivity.
  now destruct (H r ret eq_refl).
Qed.

(** A round in which the socket is readable and [recv] gives [d]. *)
Lemma service_readable (rvector : option Z) (w : bool) (d : bytes) (s : SocketBase) :
  d <> [] ->
  service rvector (mk_cycle true w false (Some d)) s =
  do msgs, s <- getAllVectorMessages3 (Some d) s;
  let '(s, ret) := dispatch rvector msgs s in Ret ret s.
Proof.
  intros Hd. unfold service. cbn [sel_e sel_r sel_w recv].
  destruct d as [|b d]; [contradiction|]. cbn [length Nat.eqb].
  now destruct (w && (0 <? getOutBufferSize1 s)).
Qed.

(** A round in which nothing arrives: no read, a read that raises, or an
    empty read. *)
Lemma service_nothing (rvector : option Z) (c : cycle) (s : SocketBase) :
  settled s -> sel_e c = false ->
  sel_r c = false \/ recv c = None \/ recv c = Some [] ->
  service rvector c s = Ret None s.
Proof.
  intros Hs He Hr. unfold service. rewrite He.
  assert (E : (if sel_r c
               then match recv c with
                    | Some d => if (length d =? 0)%nat then None else Some d
                    | None => None
                    end
               else None) = None).
  { destruct Hr as [-> | [-> | ->]]; [reflexivity | now destruct (sel_r c) ..]. }
  rewrite E.
  replace (if sel_w c && (0 <? getOutBufferSize1 s) then send1 None false s else s)
    with s by (now destruct (sel_w c && _)).
  destruct (settled_coherent s Hs) as [Ht Hc].
  rewrite (getAllVectorMessages3_parses None s [] (BytesIO.content (inbuf s)) Ht Hc).
  - cbn [map bind]. rewrite settled_fix by exact Hs. reflexivity.
  - cbn [default]. rewrite app_nil_r. constructor. apply Hs.
  - constructor.
Qed.

(** X10.  A peer that closes the connection is not noticed by a blocking
    wait.  With the receive side at rest and no reply stored for the awaited
    vector, any number of empty reads (what [recv] gives once the peer has
    closed) leaves [handleVectorMessages4] waiting, the endpoint untouched:
    the [ConnectionLostException] raised for the empty read is caught by the
    bare [except] around it.  Only exceptional readiness makes the call raise
    [ConnectionLostException]. *)
Theorem peer_close_is_not_noticed (rvector : option Z) (n : nat) (block : bool)
  (c : cycle) (world : list cycle) (s : SocketBase) :
  settled s -> nothing_stored rvector s -> sel_e c = true ->
  handleVectorMessages4 rvector true (repeat (readable []) n) s = Hang s
  /\ handleVectorMessages4 rvector true (repeat (readable []) n ++ c :: world) s
     = Raise ConnectionLostException s
  /\ handleVectorMessages4 rvector block (c :: world) s
     = Raise ConnectionLostException s.
Proof.
  intros Hs Hn He. rewrite !handle_not_stored by exact Hn.
  assert (R : forall b, handle_loop rvector b (c :: world) s
                        = Raise ConnectionLostException s).
  { intros b. cbn [handle_loop]. unfold service. now rewrite He. }
  split; [|split; [|apply R]].
  - induction n as [|n IH]; [reflexivity|].
    cbn [repeat handle_loop].
    rewrite (service_nothing rvector (readable []) s Hs eq_refl) by auto.
    exact IH.
  - induction n as [|n IH]; [apply R|].
    cbn [repeat app handle_loop].
    rewrite (service_nothing rvector (readable []) s Hs eq_refl) by auto.
    exact IH.
Qed.

Lemma peer_close_is_not_noticed_witness :
  handleVectorMessages4 (Some 0) true (repeat (readable []) 3) __init__ = Hang __init__
  /\ handleVectorMessages4 (Some 0) true
       (repeat (readable []) 3 ++ mk_cycle false false true None :: []) __init__
     = Raise ConnectionLostException __init__
  /\ handleVectorMessages4 (Some 0) false [mk_cycle false false true None] __init__
     = Raise ConnectionLostException __init__.
Proof.
  apply (peer_close_is_not_noticed (Some 0) 3 false
           (mk_cycle false false true None) [] __init__).
  - apply settled_init.
  - intros r m _. discriminate.
  - reflexivity.
Defined.

(** X11.  A read that completes no frame is kept for later.  With the
    receive side at rest and no reply stored for the awaited vector, a
    polling [handleVectorMessages4] that reads bytes which, added to the
    buffer, hold no complete message returns [None]; the bytes are at the
    end of the buffer and nothing else has changed. *)
Theorem partial_read_is_buffered (rvector : option Z) (w : bool) (d : bytes)
  (world : list cycle) (s : SocketBase) :
  settled s -> nothing_stored rvector s -> d <> [] ->
  cut (BytesIO.content (inbuf s) ++ d) = None ->
  let buf := BytesIO.content (inbuf s) ++ d in
  handleVectorMessages4 rvector false (mk_cycle true w false (Some d) :: world) s
  = Ret None (with_inbuf buf (pending buf) s).
Proof.
  intros Hs Hn Hd Hcut buf. rewrite handle_not_stored by exact Hn.
  cbn [handle_loop]. rewrite service_readable by exact Hd.
  destruct (settled_coherent s Hs) as [Ht Hc].
  rewrite (getAllVectorMessages3_parses (Some d) s [] buf Ht Hc).
  - reflexivity.
  - now constructor.
  - constructor.
Qed.

Lemma partial_read_is_buffered_witness :
  handleVectorMessages4 None false
    [mk_cycle true false false (Some (take 10 (wire (7, 0, payload_A))))] __init__
  = Ret None (with_inbuf (take 10 (wire (7, 0, payload_A)))
                (pending (take 10 (wire (7, 0, payload_A)))) __init__).
Proof.
  apply (partial_read_is_buffered None false (take 10 (wire (7, 0, payload_A))) []
           __init__).
  - apply settled_init.
  - intros r m [=].
  - discriminate.
  - reflexivity.
Defined.

Lemma wire_nonempty (m : vmsg) : wire m <> [].
Proof.
  intros E. apply (f_equal length) in E.
  rewrite wire_frame, frame_length in E. discriminate E.
Qed.

(** One read that brings exactly one vector message to an empty buffer. *)
Lemma service_one_message (other : option Z) (w : bool) (m : vmsg) (s : SocketBase) :
  settled s -> BytesIO.content (inbuf s) = [] -> sendable m ->
  service other (mk_cycle true w false (Some (wire m))) s =
  let '(s', ret) := dispatch other [m] s in Ret ret s'.
Proof.
  intros Hs He Hm. rewrite service_readable by apply wire_nonempty.
  destruct (settled_coherent s Hs) as [Ht Hc].
  rewrite (getAllVectorMessages3_parses (Some (wire m)) s [vector_payload m] [] Ht Hc).
  - cbn [map bind]. rewrite split_vector_payload by exact Hm.
    replace (with_inbuf [] (pending []) s) with s; [reflexivity|].
    rewrite <- He. symmetry. now apply settled_fix.
  - rewrite He. cbn [default app].
    assert (F : Forall sendable [m]) by (constructor; [exact Hm | constructor]).
    pose proof (parses_wires [m] F) as P.
    cbn [map concat] in P. now rewrite app_nil_r in P.
  - constructor; [|constructor]. rewrite vector_payload_length. lia.
Qed.

(** X12.  The life of an Async request.  On an endpoint with an empty
    receive buffer, [sendVectorMessageWithMode4] in mode Async returns the
    vector and registers an empty slot; when the reply arrives while someone
    polls without awaiting that vector, it is put into the slot; the
    sender's next [handleVectorMessages4] for the vector, blocking or not,
    returns the reply without looking at the socket and removes the slot, so
    that [keepresult] is what it was before the send (but for an older entry
    under the same key, which is gone). *)
Theorem async_reply_lifecycle (msg p : bytes) (rvector vr : Z)
  (cb : option cb_record) (w w' : list cycle) (block : bool) (s : SocketBase) :
  settled s -> BytesIO.content (inbuf s) = [] ->
  0 <= vector s < 2 ^ 64 -> 0 <= rvector < 2 ^ 64 -> 16 + blen msg < 2 ^ 32 ->
  0 <= vr < 2 ^ 64 -> 16 + blen p < 2 ^ 32 ->
  let v := vector s in
  let reply : vmsg := (vr, v, p) in
  exists s1 s2 s3,
    sendVectorMessageWithMode4 msg rvector IOMode.Async cb w s = Ret (Vector v) s1
    /\ keepresult s1 !! v = Some None
    /\ handleVectorMessages4 None false [readable (wire reply)] s1 = Ret None s2
    /\ keepresult s2 !! v = Some (Some reply)
    /\ handleVectorMessages4 (Some v) block w' s2 = Ret (Some reply) s3
    /\ keepresult s3 = delete v (keepresult s)
    /\ callback s3 = callback s.
Proof.
  intros Hs He Hv Hr Hl Hvr Hp v reply.
  pose (s1 := set_vector (vector s + 1)
         (send1 (Some (wire_format (vector s) rvector msg)) true
            (log (EvKeep (vector s))
               (set_keepresult (<[vector s := None]> (keepresult s)) s)))).
  pose (s2 := set_keepresult (<[v := Some reply]> (keepresult s1)) s1).
  pose (s3 := set_keepresult (delete v (keepresult s2)) s2).
  exists s1, s2, s3.
  split; [now apply mode4_async_unfold|].
  assert (Hs1 : settled s1) by exact Hs.
  split; [apply lookup_insert_eq|].
  assert (Hreply : sendable reply) by (repeat split; cbn; lia).
  assert (K2 : keepresult s2 !! v = Some (Some reply)) by apply lookup_insert_eq.
  split; [|split; [exact K2|split; [|split; [|reflexivity]]]].
  - rewrite handle_not_stored by (intros r m [=]).
    cbn [handle_loop]. unfold readable.
    rewrite (service_one_message None false reply s1 Hs1 He Hreply).
    unfold dispatch. cbn [fold_left].
    destruct (dispatch_msg_cases None s1 None reply) as
      [(Hy & _) | [(_ & _ & ->) | [(_ & Hk & _) | (_ & Hk & _)]]].
    + discriminate.
    + reflexivity.
    + cbn in Hk. now rewrite lookup_insert_eq in Hk.
    + cbn in Hk. now rewrite lookup_insert_eq in Hk.
  - unfold handleVectorMessages4. rewrite K2. reflexivity.
  - cbn. now rewrite !delete_insert_eq.
Qed.

Lemma async_reply_lifecycle_witness :
  exists s1 s2 s3,
    sendVectorMessageWithMode4 payload_A 0 IOMode.Async None [] __init__
    = Ret (Vector 0) s1
    /\ keepresult s1 !! 0 = Some None
    /\ handleVectorMessages4 None false [readable (wire (7, 0, payload_B))] s1
       = Ret None s2
    /\ keepresult s2 !! 0 = Some (Some (7, 0, payload_B))
    /\ handleVectorMessages4 (Some 0) true [] s2 = Ret (Some (7, 0, payload_B)) s3
    /\ keepresult s3 = delete 0 (keepresult __init__)
    /\ callback s3 = callback __init__.
Proof.
  apply (async_reply_lifecycle payload_A payload_B 0 7 None [] [] true __init__).
  - apply settled_init.
  - reflexivity.
  - change (vector __init__) with 0. lia.
  - lia.
  - change (blen payload_A) with 1. lia.
  - lia.
  - change (blen payload_B) with 1. lia.
Defined.

(** X13.  The life of a Callback request.  On an endpoint with an empty
    receive buffer and no slot under the vector about to be used,
    [sendVectorMessageWithMode4] in mode Callback returns the vector and
    registers the callback; when the reply arrives in a polling
    [handleVectorMessages4], the callback is invoked with its argument, the
    vector of the reply, the vector replied to and the payload, and the entry
    is removed; the call itself returns [None]. *)
Theorem callback_reply_lifecycle (msg p : bytes) (rvector vr : Z) (c : cb_record)
  (w : list cycle) (s : SocketBase) :
  settled s -> BytesIO.content (inbuf s) = [] -> keepresult s !! vector s = None ->
  0 <= vector s < 2 ^ 64 -> 0 <= rvector < 2 ^ 64 -> 16 + blen msg < 2 ^ 32 ->
  0 <= vr < 2 ^ 64 -> 16 + blen p < 2 ^ 32 ->
  let v := vector s in
  exists s1 s2,
    sendVectorMessageWithMode4 msg rvector IOMode.Callback (Some c) w s
    = Ret (Vector v) s1
    /\ callback s1 !! v = Some c
    /\ handleVectorMessages4 None false [readable (wire (vr, v, p))] s1 = Ret None s2
    /\ history s2 = history s ++ [EvCallback v c; EvWire (wire_format v rvector msg);
                                  EvInvoke c vr v p]
    /\ callback s2 = delete v (callback s)
    /\ keepresult s2 = keepresult s.
Proof.
  intros Hs He Hfree Hv Hr Hl Hvr Hp v.
  pose (s1 := set_vector (vector s + 1)
         (send1 (Some (wire_format (vector s) rvector msg)) true
            (log (EvCallback (vector s) c)
               (set_callback (<[vector s := c]> (callback s)) s)))).
  pose (s2 := log (EvInvoke c vr v p) (set_callback (delete v (callback s1)) s1)).
  exists s1, s2.
  split; [now apply mode4_callback_unfold|].
  assert (Hs1 : settled s1) by exact Hs.
  split; [apply lookup_insert_eq|].
  assert (Hreply : sendable (vr, v, p)) by (repeat split; cbn; lia).
  split; [|split; [|split; [|reflexivity]]].
  - rewrite handle_not_stored by (intros r m [=]).
    cbn [handle_loop]. unfold readable.
    rewrite (service_one_message None false (vr, v, p) s1 Hs1 He Hreply).
    unfold dispatch. cbn [fold_left].
    destruct (dispatch_msg_cases None s1 None (vr, v, p)) as
      [(Hy & _) | [(_ & Hk & _) | [(_ & _ & c' & Hc & ->) | (_ & _ & Hc & _)]]].
    + discriminate.
    + cbn in Hk. fold v in Hfree. rewrite Hfree in Hk. now destruct Hk.
    + cbn in Hc. rewrite lookup_insert_eq in Hc. injection Hc as <-. reflexivity.
    + cbn in Hc. now rewrite lookup_insert_eq in Hc.
  - cbn. now rewrite <- !app_assoc.
  - cbn. now rewrite delete_insert_eq.
Qed.

Lemma callback_reply_lifecycle_witness :
  exists s1 s2,
    sendVectorMessageWithMode4 payload_A 0 IOMode.Callback (Some (mk_cb 1 2)) [] __init__
    = Ret (Vector 0) s1
    /\ callback s1 !! 0 = Some (mk_cb 1 2)
    /\ handleVectorMessages4 None false [readable (wire (7, 0, payload_B))] s1
       = Ret None s2
    /\ history s2 = history __init__ ++
         [EvCallback 0 (mk_cb 1 2); EvWire (wire_format 0 0 payload_A);
          EvInvoke (mk_cb 1 2) 7 0 payload_B]
    /\ callback s2 = delete 0 (callback __init__)
    /\ keepresult s2 = keepresult __init__.
Proof.
  apply (callback_reply_lifecycle payload_A payload_B 0 7 (mk_cb 1 2) [] __init__).
  - apply settled_init.
  - reflexivity.
  - reflexivity.
  - change (vector __init__) with 0. lia.
  - lia.
  - change (blen payload_A) with 1. lia.
  - lia.
  - change (blen payload_B) with 1. lia.
Defined.

(** ** Draining the outbound queue *)

Lemma send_chunk_done (answers : list send_answer) (data : bytes) (t : nat) :
  (length data <= t)%nat -> send_chunk answers data t = (true, t, answers).
Proof.
  intros H. destruct answers as [|a answers]; cbn [send_chunk];
    destruct (Nat.ltb_spec t (length data)); (lia || reflexivity).
Qed.

Lemma send_queue_suffix (answers : list send_answer) (q : list bytes) (sz : Z) :
  exists sent,
    concat q = sent ++ concat (send_queue answers q sz).1
    /\ (send_queue answers q sz).2 = sz - blen sent.
Proof.
  revert answers sz. induction q as [|data q IH]; intros answers sz.
  - exists []. cbn. split; [reflexivity | unfold blen; cbn; lia].
  - cbn [send_queue].
    pose proof (send_chunk_total answers data 0 ltac:(lia)) as [H1 H2].
    destruct (send_chunk answers data 0) as [[whole totalsent] answers'].
    cbn [fst snd] in *. destruct whole.
    + destruct (IH answers' (sz - Z.of_nat totalsent)) as (sent & E1 & E2).
      exists (data ++ sent). cbn [concat]. rewrite E1 at 1. rewrite E2.
      split; [now rewrite app_assoc|].
      unfold blen. rewrite length_app, (H2 eq_refl). lia.
    + exists (take totalsent data). cbn [fst snd concat]. split.
      * now rewrite !app_assoc, take_drop.
      * unfold blen. rewrite length_take. lia.
Qed.

(** X14.  [__send1] sends from the front and keeps the rest: whatever the
    socket answers, the bytes queued before are the bytes it has taken
    followed by the bytes still queued, in the same order, and
    [getOutBufferSize1()] has gone down by the number of bytes taken.
    Nothing else of the endpoint changes. *)
Theorem drain_sends_a_prefix (answers : list send_answer) (s : SocketBase) :
  let s' := __send1 answers s in
  exists sent,
    concat (oubuf s) = sent ++ concat (oubuf s')
    /\ getOutBufferSize1 s' = getOutBufferSize1 s - blen sent
    /\ s' = set_oubufsz (oubufsz s') (set_oubuf (oubuf s') s).
Proof.
  unfold __send1, getOutBufferSize1.
  destruct (send_queue_suffix answers (oubuf s) (oubufsz s)) as (sent & E1 & E2).
  destruct (send_queue answers (oubuf s) (oubufsz s)) as [q sz].
  exists sent. cbn [fst snd] in *. repeat split; assumption.
Qed.

Lemma send_queue_all (k n : nat) (q : list bytes) (sz : Z) :
  Forall (fun chunk => (length chunk <= k)%nat) q -> (length q <= n)%nat ->
  send_queue (repeat (Some k) n) q sz = ([], sz - total_len q).
Proof.
  intros Hq. revert n sz. induction Hq as [|data q Hd _ IH]; intros n sz Hn.
  - cbn. f_equal. lia.
  - cbn [length] in Hn. destruct n as [|n]; [lia|].
    cbn [send_queue]. rewrite total_len_cons.
    destruct data as [|b data].
    + rewrite send_chunk_done by (cbn; lia).
      rewrite (IH (S n)) by lia. f_equal. unfold blen. cbn. lia.
    + cbn [repeat send_chunk]. cbn [length] in *.
      destruct (Nat.ltb_spec 0 (S (length data))); [|lia].
      rewrite Nat.sub_0_r, Nat.min_r by lia.
      cbn [Nat.eqb]. rewrite send_chunk_done by (cbn; lia).
      rewrite IH by lia. f_equal. unfold blen. cbn [length]. lia.
Qed.

(** X15.  A socket that takes whatever it is offered empties the queue: when
    every [send] accepts up to [k] bytes, no chunk is longer than [k], and
    there are at least as many such answers as chunks, [__send1] leaves
    [oubuf] empty, and [getOutBufferSize1()] is 0 if it agreed with the queue
    before. *)
Theorem drain_empties_queue (k n : nat) (s : SocketBase) :
  Forall (fun chunk => (length chunk <= k)%nat) (oubuf s) ->
  (length (oubuf s) <= n)%nat -> queue_ok s ->
  oubuf (__send1 (repeat (Some k) n) s) = []
  /\ getOutBufferSize1 (__send1 (repeat (Some k) n) s) = 0.
Proof.
  intros Hq Hn Hok. unfold __send1, getOutBufferSize1.
  rewrite send_queue_all by assumption. cbn. split; [reflexivity|].
  unfold queue_ok in Hok. lia.
Qed.

Lemma drain_empties_queue_witness :
  let s := set_oubufsz 2 (set_oubuf [payload_A; []; payload_B] __init__) in
  oubuf (__send1 (repeat (Some 4%nat) 3) s) = []
  /\ getOutBufferSize1 (__send1 (repeat (Some 4%nat) 3) s) = 0.
Proof.
  apply (drain_empties_queue 4 3
           (set_oubufsz 2 (set_oubuf [payload_A; []; payload_B] __init__))).
  - repeat constructor.
  - cbn. lia.
  - reflexivity.
Defined.

(** ** The latency thread *)

Lemma item_eqb_refl (x : Q * bytes) : item_eqb x x = true.
Proof.
  unfold item_eqb. rewrite bool_decide_eq_true_2 by reflexivity.
  rewrite andb_true_r. apply Qeq_bool_iff. reflexivity.
Qed.

Lemma item_eqb_overdue (now : Q) (x y : Q * bytes) :
  item_eqb x y = true -> overdue now x = overdue now y.
Proof.
  unfold item_eqb, overdue. intros H. apply andb_true_iff in H as [H _].
  apply Qeq_bool_iff in H. f_equal.
  destruct (Qle_bool (now - fst x) 2) eqn:E1, (Qle_bool (now - fst y) 2) eqn:E2;
    try reflexivity.
  - apply Qle_bool_iff in E1. rewrite H in E1. apply Qle_bool_iff in E1. congruence.
  - apply Qle_bool_iff in E2. rewrite <- H in E2. apply Qle_bool_iff in E2. congruence.
Qed.

Lemma list_remove_skip (x : Q * bytes) (pre l : list (Q * bytes)) :
  Forall (fun y => item_eqb y x = false) pre ->
  list_remove x (pre ++ x :: l) = pre ++ l.
Proof.
  induction 1 as [|y pre Hy _ IH]; cbn [app list_remove].
  - now rewrite item_eqb_refl.
  - now rewrite Hy, IH.
Qed.

(** Taking the overdue items out one by one, as the second loop does, leaves
    the others, in their order. *)
Lemma remove_overdue (now : Q) (pre l : list (Q * bytes)) :
  Forall (fun y => overdue now y = false) pre ->
  fold_left (fun l item => list_remove item l) (List.filter (overdue now) l) (pre ++ l)
  = pre ++ List.filter (fun y => negb (overdue now y)) l.
Proof.
  revert pre. induction l as [|x l IH]; intros pre Hpre; [reflexivity|].
  cbn [List.filter]. destruct (overdue now x) eqn:Hx; cbn [negb fold_left].
  - rewrite list_remove_skip; [now apply IH|].
    eapply Forall_impl; [exact Hpre|]. intros y Hy. cbn beta in Hy.
    destruct (item_eqb y x) eqn:E; [|reflexivity].
    apply (item_eqb_overdue now) in E. congruence.
  - change (pre ++ x :: l) with (pre ++ [x] ++ l). rewrite app_assoc, IH.
    + now rewrite <- app_assoc.
    + apply Forall_app. split; [exact Hpre | now constructor].
Qed.

Lemma stage_out_rest (now : Q) (items tr : list (Q * bytes)) (s : SocketBase) :
  let s' := (stage_out now items tr s).2 in
  s' = set_slowsz (slowsz s') (set_oubufsz (oubufsz s') (set_oubuf (oubuf s') s)).
Proof.
  revert tr s. induction items as [|item items IH]; intros tr s.
  - now destruct s.
  - cbn [stage_out]. destruct (overdue now item); [|apply IH].
    cbv zeta. rewrite (IH _ (set_slowsz _ _)) at 1. reflexivity.
Qed.

(** X16.  A round of the latency thread keeps every byte and its place.  The
    items staged for more than two seconds leave [slow], the others stay, in
    their order; the bytes queued before, followed by the overdue chunks in
    the order they were staged, are the bytes the socket has taken during the
    round followed by the bytes queued after it.  Tables, counter, receive
    buffer and history are not touched. *)
Theorem latency_round_keeps_bytes (answers : list send_answer) (s : SocketBase) :
  let s' := __latencySimThread answers s in
  let due := List.filter (overdue (wallclock s)) (slow s) in
  slow s' = List.filter (fun item => negb (overdue (wallclock s) item)) (slow s)
  /\ slowsz s' = slowsz s - total_len (map snd due)
  /\ (exists sent,
        concat (oubuf s) ++ concat (map snd due) = sent ++ concat (oubuf s')
        /\ getOutBufferSize1 s'
           = getOutBufferSize1 s + total_len (map snd due) - blen sent)
  /\ s' = set_slow (slow s') (set_slowsz (slowsz s')
            (set_oubufsz (oubufsz s') (set_oubuf (oubuf s') s))).
Proof.
  unfold __latencySimThread.
  pose proof (stage_out_spec (wallclock s) (slow s) [] s)
    as (I1 & I2 & I3 & I4 & I5 & _).
  pose proof (stage_out_rest (wallclock s) (slow s) [] s) as I7.
  destruct (stage_out (wallclock s) (slow s) [] s) as [tr s1].
  cbn [fst snd] in *. cbn [app] in I1. subst tr.
  rewrite I5.
  pose proof (remove_overdue (wallclock s) [] (slow s) (List.Forall_nil _)) as R.
  cbn [app] in R. rewrite R. clear R.
  set (rest := List.filter (fun y => negb (overdue (wallclock s) y)) (slow s)) in *.
  set (due := List.filter (overdue (wallclock s)) (slow s)) in *.
  set (s2 := set_slow rest s1).
  assert (E2 : s2 = set_slow rest (set_slowsz (slowsz s1)
                      (set_oubufsz (oubufsz s1) (set_oubuf (oubuf s1) s))))
    by (subst s2; rewrite I7 at 1; reflexivity).
  destruct (0 <? getOutBufferSize1 s2).
  - unfold __send1, getOutBufferSize1.
    destruct (send_queue_suffix answers (oubuf s2) (oubufsz s2)) as (sent & E1 & E3).
    destruct (send_queue answers (oubuf s2) (oubufsz s2)) as [q sz].
    cbn [fst snd] in *. split; [reflexivity|]. split; [exact I4|]. split.
    + exists sent. split.
      * change (oubuf (set_oubufsz sz (set_oubuf q s2))) with q.
        rewrite <- E1. change (oubuf s2) with (oubuf s1).
        now rewrite I2, concat_app.
      * change (oubufsz (set_oubufsz sz (set_oubuf q s2))) with sz.
        rewrite E3. change (oubufsz s2) with (oubufsz s1). rewrite I3. lia.
    + rewrite E2. reflexivity.
  - split; [reflexivity|]. split; [exact I4|]. split.
    + exists []. split.
      * change (oubuf s2) with (oubuf s1). now rewrite I2, concat_app.
      * unfold getOutBufferSize1. change (oubufsz s2) with (oubufsz s1).
        rewrite I3. change (blen []) with 0. lia.
    + rewrite E2 at 1. subst s2. reflexivity.
Qed.

(** ** Sends that cannot be packed *)

Lemma sendVectorMessage3_raises (msg : bytes) (rvector : Z) (block : bool)
  (s : SocketBase) :
  ~ (0 <= vector s < 2 ^ 64 /\ 0 <= rvector < 2 ^ 64 /\ 16 + blen msg < 2 ^ 32) ->
  sendVectorMessage3 msg rvector block s = Raise StructError s.
Proof.
  intros H. destruct (sendVectorMessage3_fail msg rvector block s)
    as [(v & s' & E) | E]; [|exact E].
  apply sendVectorMessage3_inv in E. contradiction.
Qed.

(** X17.  A vector send whose counter or reply vector does not fit 64 bits,
    or whose frame length does not fit 32 bits, raises [struct.error] and
    stages nothing.  [sendVectorMessage3] and mode Discard leave the endpoint
    as it was; the modes Async, Block and Callback have made their table
    entry before, and it stays behind.  The counter is not advanced, so the
    next send uses the same vector. *)
Theorem failed_send_keeps_registration (msg : bytes) (rvector : Z) (block : bool)
  (cb : option cb_record) (c : cb_record) (w : list cycle) (s : SocketBase) :
  ~ (0 <= vector s < 2 ^ 64 /\ 0 <= rvector < 2 ^ 64 /\ 16 + blen msg < 2 ^ 32) ->
  let v := vector s in
  let kept := log (EvKeep v) (set_keepresult (<[v := None]> (keepresult s)) s) in
  sendVectorMessage3 msg rvector block s = Raise StructError s
  /\ sendVectorMessageWithMode4 msg rvector IOMode.Discard cb w s = Raise StructError s
  /\ sendVectorMessageWithMode4 msg rvector IOMode.Async cb w s = Raise StructError kept
  /\ sendVectorMessageWithMode4 msg rvector IOMode.Block cb w s = Raise StructError kept
  /\ sendVectorMessageWithMode4 msg rvector IOMode.Callback (Some c) w s
     = Raise StructError
         (log (EvCallback v c) (set_callback (<[v := c]> (callback s)) s)).
Proof.
  intros H v kept. unfold sendVectorMessageWithMode4.
  change (IOMode.Discard =? IOMode.Async) with false.
  change (IOMode.Discard =? IOMode.Callback) with false.
  change (IOMode.Discard =? IOMode.Discard) with true.
  change (IOMode.Async =? IOMode.Async) with true.
  change (IOMode.Block =? IOMode.Async) with false.
  change (IOMode.Block =? IOMode.Callback) with false.
  change (IOMode.Block =? IOMode.Discard) with false.
  change (negb (IOMode.Block =? IOMode.Block)) with false.
  change (IOMode.Callback =? IOMode.Async) with false.
  change (IOMode.Callback =? IOMode.Callback) with true.
  cbv iota. fold v. fold kept.
  rewrite !(sendVectorMessage3_raises msg rvector _ s) by exact H.
  rewrite !(sendVectorMessage3_raises msg rvector _ kept) by exact H.
  rewrite (sendVectorMessage3_raises msg rvector true
             (log (EvCallback v c) (set_callback (<[v := c]> (callback s)) s)))
    by exact H.
  repeat split.
Qed.

Lemma failed_send_keeps_registration_witness :
  sendVectorMessageWithMode4 payload_A (-1) IOMode.Async None [] __init__
  = Raise StructError
      (log (EvKeep 0) (set_keepresult (<[0 := None]> (keepresult __init__)) __init__)).
Proof.
  apply (failed_send_keeps_registration payload_A (-1) true None (mk_cb 0 0) [] __init__).
  intros (_ & Hr & _). lia.
Defined.

(** ** The vectors on the wire, over the life of an endpoint *)

Lemma packable_dec (msg : bytes) (rvector : Z) (s : SocketBase) :
  {0 <= vector s < 2 ^ 64 /\ 0 <= rvector < 2 ^ 64 /\ 16 + blen msg < 2 ^ 32}
  + {~ (0 <= vector s < 2 ^ 64 /\ 0 <= rvector < 2 ^ 64 /\ 16 + blen msg < 2 ^ 32)}.
Proof.
  destruct (decide (0 <= vector s < 2 ^ 64 /\ 0 <= rvector < 2 ^ 64
                    /\ 16 + blen msg < 2 ^ 32)); [left | right]; assumption.
Qed.

Lemma step_ok_same (s s' : SocketBase) (evs : list event) :
  history s' = history s ++ evs -> wire_of evs = [] -> vector s' = vector s ->
  step_ok s s'.
Proof. intros Hh Hw Hv. exists evs. split; [exact Hh|]. left. now rewrite Hw. Qed.

Lemma step_ok_sent (s s' : SocketBase) (pre rest : list event) (rvector : Z)
  (msg : bytes) :
  history s' = history s ++ pre ++ EvWire (wire_format (vector s) rvector msg) :: rest ->
  wire_of pre = [] -> wire_of rest = [] -> vector s' = vector s + 1 ->
  0 <= vector s < 2 ^ 64 ->
  step_ok s s'.
Proof.
  intros Hh Hp Hr Hv Hrange. eexists. split; [exact Hh|]. right.
  rewrite sent_one by assumption. rewrite frame_vector_wire_format by exact Hrange.
  repeat split; [exact Hv | lia].
Qed.

Lemma sendVectorMessage3_step (msg : bytes) (rvector : Z) (block : bool)
  (pre : list event) (s0 s : SocketBase) :
  history s = history s0 ++ pre -> wire_of pre = [] -> vector s = vector s0 ->
  step_ok s0 (state_of (sendVectorMessage3 msg rvector block s)).
Proof.
  intros Hh Hp Hv. destruct (packable_dec msg rvector s) as [(H1 & H2 & H3) | Hn].
  - rewrite sendVectorMessage3_ok by assumption. cbn [state_of].
    eapply (step_ok_sent s0 _ pre [] rvector msg).
    + cbn. rewrite Hh, Hv. now rewrite <- app_assoc.
    + exact Hp.
    + reflexivity.
    + cbn. lia.
    + lia.
  - rewrite sendVectorMessage3_raises by exact Hn. cbn [state_of].
    now apply (step_ok_same s0 s pre).
Qed.

Lemma handleVectorMessages4_history (rvector : option Z) (block : bool)
  (world : list cycle) (s : SocketBase) :
  exists evs,
    history (state_of (handleVectorMessages4 rvector block world s)) = history s ++ evs
    /\ forallb is_invoke evs = true.
Proof.
  unfold handleVectorMessages4.
  assert (H : exists evs,
             history (state_of (handle_loop rvector block world s)) = history s ++ evs
             /\ forallb is_invoke evs = true) by apply handle_loop_effect.
  destruct rvector as [r|]; [|exact H].
  destruct (keepresult s !! r) as [[ret|]|]; try exact H.
  exists []. cbn. now rewrite app_nil_r.
Qed.

Lemma mode4_step (msg : bytes) (rvector mode : Z) (cb : option cb_record)
  (world : list cycle) (s : SocketBase) :
  step_ok s (state_of (sendVectorMessageWithMode4 msg rvector mode cb world s)).
Proof.
  unfold sendVectorMessageWithMode4.
  destruct (mode =? IOMode.Async).
  { rewrite state_of_bind_Ret.
    apply (sendVectorMessage3_step msg rvector true [EvKeep (vector s)]);
      reflexivity. }
  destruct (mode =? IOMode.Callback).
  { destruct cb as [c|].
    - rewrite state_of_bind_Ret.
      apply (sendVectorMessage3_step msg rvector true [EvCallback (vector s) c]);
        reflexivity.
    - apply (step_ok_same s s []); [cbn; now rewrite app_nil_r | reflexivity ..]. }
  destruct (mode =? IOMode.Discard).
  { rewrite state_of_bind_Ret.
    apply (sendVectorMessage3_step msg rvector true []);
      [cbn; now rewrite app_nil_r | reflexivity ..]. }
  destruct (negb (mode =? IOMode.Block)).
  { apply (step_ok_same s s []); [cbn; now rewrite app_nil_r | reflexivity ..]. }
  set (s1 := log _ _).
  destruct (packable_dec msg rvector s1) as [(H1 & H2 & H3) | Hn].
  - rewrite sendVectorMessage3_ok by assumption. cbn [bind].
    rewrite state_of_bind_Ret. set (s2 := set_vector _ _).
    destruct (handleVectorMessages4_history (Some (vector s)) true world s2)
      as (evs & Hh & He).
    eapply (step_ok_sent s _ [EvKeep (vector s)] evs rvector msg).
    + rewrite Hh. subst s2 s1. cbn. now rewrite <- !app_assoc.
    + reflexivity.
    + now apply wire_of_invokes.
    + rewrite handleVectorMessages4_vector. reflexivity.
    + exact H1.
  - rewrite sendVectorMessage3_raises by exact Hn. cbn [bind state_of].
    apply (step_ok_same s s1 [EvKeep (vector s)]); reflexivity.
Qed.

Lemma latency_round_history (answers : list send_answer) (s : SocketBase) :
  history (__latencySimThread answers s) = history s.
Proof.
  unfold __latencySimThread.
  pose proof (stage_out_rest (wallclock s) (slow s) [] s) as I.
  destruct (stage_out (wallclock s) (slow s) [] s) as [tr s1]. cbn [snd] in I.
  set (s2 := set_slow _ s1).
  assert (H : history s2 = history s) by (subst s2; rewrite I; reflexivity).
  destruct (0 <? getOutBufferSize1 s2); [|exact H].
  unfold __send1. destruct (send_queue _ _ _). exact H.
Qed.

Lemma outside_inbuf_step (s s' : SocketBase) :
  outside_inbuf s' = outside_inbuf s -> step_ok s s'.
Proof.
  intros [= _ _ Hv _ _ _ _ _ Hh].
  apply (step_ok_same s s' []); [rewrite app_nil_r; exact Hh | reflexivity | exact Hv].
Qed.

Lemma vector_op_step (o : op) (s : SocketBase) :
  vector_op o = true -> step_ok s (run_op o s).
Proof.
  destruct o; cbn [vector_op run_op]; try discriminate; intros _.
  - destruct c as [msg rvector block | msg rvector mode cb world]; cbn [run_send].
    + unfold as_vector. rewrite state_of_bind_Ret.
      apply (sendVectorMessage3_step msg rvector block []);
        [cbn; now rewrite app_nil_r | reflexivity ..].
    + apply mode4_step.
  - apply outside_inbuf_step, getMessage2_outside.
  - apply outside_inbuf_step, getAllMessages2_outside.
  - apply outside_inbuf_step, getVectorMessage3_outside.
  - apply outside_inbuf_step, getAllVectorMessages3_outside.
  - destruct (handleVectorMessages4_history rvector block world s) as (evs & Hh & He).
    apply (step_ok_same _ _ evs Hh); [now apply wire_of_invokes|].
    apply handleVectorMessages4_vector.
  - apply (step_ok_same _ _ []);
      [rewrite app_nil_r; apply latency_round_history | reflexivity |
       apply latency_round_vector].
  - apply (step_ok_same _ _ []); [cbn; now rewrite app_nil_r | reflexivity ..].
Qed.

Lemma step_ok_sorted (s s' : SocketBase) :
  step_ok s s' ->
  0 <= vector s ->
  StronglySorted Z.lt (sent_vectors s) ->
  Forall (fun v => 0 <= v < vector s) (sent_vectors s) ->
  0 <= vector s'
  /\ StronglySorted Z.lt (sent_vectors s')
  /\ Forall (fun v => 0 <= v < vector s') (sent_vectors s').
Proof.
  intros (evs & Hh & Hcase) H0 Hs Hf. unfold sent_vectors in *.
  rewrite Hh, wire_of_app, map_app.
  destruct Hcase as [[-> ->] | (-> & -> & Hv)].
  - rewrite app_nil_r. auto.
  - split; [lia|]. split.
    + apply StronglySorted_app_2.
      * intros x1 x2 H1 H2. apply list_elem_of_singleton in H2 as ->.
        rewrite Forall_forall in Hf. apply Hf in H1. lia.
      * exact Hs.
      * repeat constructor.
    + apply Forall_app. split.
      * eapply Forall_impl; [exact Hf|]. intros v Hv'. cbn beta in Hv'. lia.
      * repeat constructor; lia.
Qed.

Lemma run_ops_sorted (ops : list op) (s : SocketBase) :
  forallb vector_op ops = true ->
  0 <= vector s ->
  StronglySorted Z.lt (sent_vectors s) ->
  Forall (fun v => 0 <= v < vector s) (sent_vectors s) ->
  StronglySorted Z.lt (sent_vectors (run_ops ops s))
  /\ Forall (fun v => 0 <= v < vector (run_ops ops s)) (sent_vectors (run_ops ops s)).
Proof.
  revert s. induction ops as [|o ops IH]; intros s Hops H0 Hs Hf; [auto|].
  cbn [forallb] in Hops. apply andb_true_iff in Hops as [Ho Hops].
  cbn [run_ops fold_left]. fold (run_ops ops (run_op o s)).
  destruct (step_ok_sorted s (run_op o s) (vector_op_step o s Ho) H0 Hs Hf)
    as (H0' & Hs' & Hf').
  now apply IH.
Qed.

(** X18.  Over the whole life of an endpoint that is used through layers 3
    and 4 (any sequence of vector sends in any mode, receives, dispatcher
    calls, rounds of the latency thread; also calls that raise or never
    return), the vectors of the frames handed to the outbound path are
    strictly increasing in the order of hand-over, and all of them lie below
    the counter. *)
Theorem sent_vectors_increasing (ops : list op) :
  forallb vector_op ops = true ->
  let s := run_ops ops __init__ in
  StronglySorted Z.lt (sent_vectors s)
  /\ Forall (fun v => 0 <= v < vector s) (sent_vectors s).
Proof.
  intros Hops. apply run_ops_sorted; [exact Hops | reflexivity | constructor ..].
Qed.

Lemma sent_vectors_increasing_witness :
  let s := run_ops [OpSend (Send3 payload_A 0 true);
                    OpHandleVectorMessages4 None false [];
                    OpSend (SendMode4 payload_B 0 IOMode.Async None [])] __init__ in
  StronglySorted Z.lt (sent_vectors s)
  /\ Forall (fun v => 0 <= v < vector s) (sent_vectors s).
Proof.
  apply (sent_vectors_increasing
           [OpSend (Send3 payload_A 0 true);
            OpHandleVectorMessages4 None false [];
            OpSend (SendMode4 payload_B 0 IOMode.Async None [])]).
  reflexivity.
Defined.

(** ** The demo servers *)

Lemma xff_255 (b : Byte.byte) : b = Byte.xff <-> Z_of_byte b = 255.
Proof.
  split; [now intros -> |].
  intros H. rewrite <- (byte_of_Z_of_byte b), H. reflexivity.
Qed.

Lemma doWork_Some (data : bytes) : ~ In Byte.xff data -> doWork data = Some (worked data).
Proof.
  intros H. unfold doWork, py_bytes.
  assert (F : forallb (fun x => (0 <=? x) && (x <? 256))
                (map (fun b => Z_of_byte b + 1) data) = true).
  { apply forallb_forall. intros x Hx. apply in_map_iff in Hx as (b & <- & Hb).
    pose proof (Z_of_byte_range b).
    assert (Z_of_byte b <> 255) by (intros E; apply xff_255 in E; congruence).
    apply andb_true_iff. split; [apply Z.leb_le | apply Z.ltb_lt]; lia. }
  rewrite F. unfold worked. now rewrite map_map.
Qed.

Lemma doWork_None (data : bytes) : In Byte.xff data -> doWork data = None.
Proof.
  intros H. unfold doWork, py_bytes.
  destruct (forallb _ _) eqn:F; [|reflexivity].
  rewrite forallb_forall in F.
  specialize (F (Z_of_byte Byte.xff + 1)
                (in_map (fun b => Z_of_byte b + 1) data Byte.xff H)).
  discriminate F.
Qed.

(** X19.  [doWork] adds one to every byte and keeps the length; it raises
    ([ValueError], from [bytes(out)]) exactly when the data holds a byte
    0xFF. *)
Theorem doWork_adds_one (data : bytes) :
  (doWork data = None <-> In Byte.xff data)
  /\ (forall out, doWork data = Some out ->
        length out = length data
        /\ map Z_of_byte out = map (fun b => Z_of_byte b + 1) data).
Proof.
  destruct (in_dec Byte.byte_eq_dec Byte.xff data) as [Hin|Hnin].
  - rewrite doWork_None by exact Hin. split; [tauto | discriminate].
  - rewrite doWork_Some by exact Hnin. split.
    + split; [discriminate | contradiction].
    + intros out [= <-]. unfold worked. split; [apply length_map|].
      rewrite map_map. apply map_ext_in. intros b Hb.
      rewrite Z_of_byte_of_Z. pose proof (Z_of_byte_range b).
      assert (Z_of_byte b <> 255) by (intros E; apply xff_255 in E; congruence).
      apply Z.mod_small. lia.
Qed.

Lemma blen_worked (p : bytes) : blen (worked p) = blen p.
Proof. unfold blen, worked. now rewrite length_map. Qed.

(** The replies go out one by one, with consecutive vectors. *)
Lemma reply_all3_ok (reqs : list vmsg) (s : SocketBase) :
  Forall sendable reqs ->
  Forall (fun m => ~ In Byte.xff (vm_payload m)) reqs ->
  0 <= vector s -> vector s + Z.of_nat (length reqs) <= 2 ^ 64 ->
  exists s',
    reply_all3 reqs s = inl (Ret tt s')
    /\ history s' = history s ++ map EvWire (replies_from (vector s) reqs)
    /\ vector s' = vector s + Z.of_nat (length reqs)
    /\ inbuf s' = inbuf s /\ inbuf_cursz s' = inbuf_cursz s
    /\ keepresult s' = keepresult s /\ callback s' = callback s.
Proof.
  intros Hs. revert s.
  induction Hs as [|m reqs Hm _ IH]; intros s Hx H0 Hmax.
  - exists s. cbn. rewrite app_nil_r. repeat split. lia.
  - inversion Hx as [|? ? Hxm Hxr]; subst.
    destruct m as [[v rv] p]. destruct Hm as (Hv & _ & Hl).
    cbn [vm_vector vm_rvector vm_payload fst snd length] in *.
    cbn [reply_all3]. rewrite doWork_Some by exact Hxm.
    rewrite sendVectorMessage3_ok by (rewrite ?blen_worked; lia).
    set (s1 := set_vector _ _).
    destruct (IH s1 Hxr) as (s' & E & Hh & Hvec & Hi & Hc & Hk & Hcb).
    + subst s1. cbn. lia.
    + subst s1. cbn. lia.
    + exists s'. split; [exact E|]. rewrite Hh, Hvec, Hi, Hc, Hk, Hcb.
      subst s1. cbn. rewrite <- app_assoc. repeat split. lia.
Qed.

(** A read that brings whole vector messages to an empty buffer. *)
Lemma getAllVectorMessages3_wires (ms : list vmsg) (s : SocketBase) :
  settled s -> BytesIO.content (inbuf s) = [] -> Forall sendable ms ->
  getAllVectorMessages3 (Some (concat (map wire ms))) s = Ret ms s.
Proof.
  intros Hs He Hms. destruct (settled_coherent s Hs) as [Ht Hc].
  rewrite (getAllVectorMessages3_parses (Some (concat (map wire ms))) s
             (map vector_payload ms) [] Ht Hc).
  - rewrite map_map. f_equal.
    + rewrite <- (map_id ms) at 2. apply map_ext_Forall.
      eapply Forall_impl; [exact Hms|]. intros m Hm. now apply split_vector_payload.
    + rewrite <- He. now apply settled_fix.
  - rewrite He. cbn [default app]. now apply parses_wires.
  - apply Forall_map. apply Forall_forall. intros m _.
    rewrite vector_payload_length. lia.
Qed.

Lemma serve3_ok (reqs : list vmsg) (s : SocketBase) :
  settled s -> BytesIO.content (inbuf s) = [] ->
  Forall sendable reqs ->
  Forall (fun m => ~ In Byte.xff (vm_payload m)) reqs ->
  0 <= vector s -> vector s + Z.of_nat (length reqs) <= 2 ^ 64 ->
  exists s',
    serve3 (concat (map wire reqs)) s = inl (Ret tt s')
    /\ emitted s s' = replies_from (vector s) reqs
    /\ vector s' = vector s + Z.of_nat (length reqs)
    /\ settled s' /\ BytesIO.content (inbuf s') = [].
Proof.
  intros Hs He Hreqs Hx H0 Hmax. unfold serve3. cbn [send1].
  rewrite getAllVectorMessages3_wires by assumption.
  destruct (reply_all3_ok reqs s Hreqs Hx H0 Hmax)
    as (s' & E & Hh & Hvec & Hi & Hc & _).
  exists s'. split; [exact E|]. split; [|split; [exact Hvec|]].
  - rewrite (emitted_app _ _ _ Hh). apply wire_of_wires.
  - unfold settled, tidy. rewrite Hi, Hc. auto.
Qed.

(** X20.  The layer-3 demo server answers every request of a read, in order.
    When [recv] gives the frames of vector messages whose payloads hold no
    byte 0xFF, the round of [ServerEntry] returns normally and has handed
    over one reply per request: the reply to request [(v, rv, p)] carries the
    next value of the server's counter as its vector, [v] as its reply vector
    and [doWork(p)] as its payload. *)
Theorem server_replies_in_order (reqs : list vmsg) (s : SocketBase) :
  settled s -> BytesIO.content (inbuf s) = [] ->
  Forall sendable reqs ->
  Forall (fun m => ~ In Byte.xff (vm_payload m)) reqs ->
  0 <= vector s -> vector s + Z.of_nat (length reqs) <= 2 ^ 64 ->
  exists s',
    serve3 (concat (map wire reqs)) s = inl (Ret tt s')
    /\ emitted s s' = replies_from (vector s) reqs
    /\ vector s' = vector s + Z.of_nat (length reqs)
    /\ settled s' /\ BytesIO.content (inbuf s') = [].
Proof. apply serve3_ok. Qed.

Lemma server_replies_in_order_witness :
  exists s',
    serve3 (concat (map wire [(0, 0, payload_A); (1, 0, payload_B)])) __init__
    = inl (Ret tt s')
    /\ emitted __init__ s'
       = replies_from (vector __init__) [(0, 0, payload_A); (1, 0, payload_B)]
    /\ vector s' = vector __init__ + Z.of_nat (length [(0, 0, payload_A); (1, 0, payload_B)])
    /\ settled s' /\ BytesIO.content (inbuf s') = [].
Proof.
  apply (server_replies_in_order [(0, 0, payload_A); (1, 0, payload_B)] __init__).
  - apply settled_init.
  - reflexivity.
  - repeat constructor; cbn; lia.
  - repeat constructor; intros [H|[]]; discriminate H.
  - reflexivity.
  - cbn. lia.
Defined.

(** X21.  A Block-mode request through the layer-3 demo server.  A client
    with an empty receive buffer sends [p] (no byte 0xFF) in mode Block; the
    server, fed the frame the client has handed over, hands over one reply;
    when that reply is what the client's next read gives,
    [sendVectorMessageWithMode4] returns the triple of the server's vector,
    the client's vector and [doWork(p)]. *)
Theorem echo_through_server (p : bytes) (rvector : Z) (cb : option cb_record)
  (client server : SocketBase) :
  settled client -> BytesIO.content (inbuf client) = [] ->
  settled server -> BytesIO.content (inbuf server) = [] ->
  0 <= vector client < 2 ^ 64 -> 0 <= rvector < 2 ^ 64 -> 16 + blen p < 2 ^ 32 ->
  0 <= vector server < 2 ^ 64 -> ~ In Byte.xff p ->
  let request := wire_format (vector client) rvector p in
  let reply := wire_format (vector server) (vector client) (worked p) in
  exists client' server',
    serve3 request server = inl (Ret tt server')
    /\ emitted server server' = [reply]
    /\ sendVectorMessageWithMode4 p rvector IOMode.Block cb [readable reply] client
       = Ret (Reply (Some (vector server, vector client, worked p))) client'
    /\ emitted client client' = [request]
    /\ doWork p = Some (worked p).
Proof.
  intros Hc Hce Hs Hse Hvc Hr Hl Hvs Hx request reply.
  assert (Hreq : Forall sendable [(vector client, rvector, p)])
    by (constructor; [repeat split; cbn; lia | constructor]).
  assert (Hxs : Forall (fun m : vmsg => ~ In Byte.xff (vm_payload m))
                  [(vector client, rvector, p)])
    by (constructor; [exact Hx | constructor]).
  destruct (serve3_ok [(vector client, rvector, p)] server Hs Hse Hreq Hxs)
    as (server' & E1 & E2 & _); [lia | cbn; lia |].
  cbn [map concat] in E1. unfold wire in E1.
  cbn [vm_vector vm_rvector vm_payload fst snd] in E1. rewrite app_nil_r in E1.
  pose (s2 := set_vector (vector client + 1)
                (send1 (Some request) false
                   (log (EvKeep (vector client))
                      (set_keepresult (<[vector client := None]> (keepresult client))
                         client)))).
  exists s2, server'.
  split; [exact E1|]. split; [exact E2|]. split; [|split].
  - rewrite mode4_block_unfold by assumption. fold request. fold s2.
    cbn [handle_loop]. unfold readable.
    assert (Hm : sendable (vector server, vector client, worked p))
      by (repeat split; cbn; rewrite ?blen_worked; lia).
    change reply with (wire (vector server, vector client, worked p)).
    rewrite (service_one_message (Some (vector client)) false
               (vector server, vector client, worked p) s2 Hc Hce Hm).
    unfold dispatch. cbn [fold_left].
    destruct (dispatch_msg_cases (Some (vector client)) s2 None
                (vector server, vector client, worked p))
      as [(_ & ->) | [(H & _) | [(H & _) | (H & _)]]]; [reflexivity | ..];
      now contradiction H.
  - rewrite (emitted_app client s2 [EvKeep (vector client); EvWire request]).
    + reflexivity.
    + subst s2. cbn. now rewrite <- app_assoc.
  - now apply doWork_Some.
Qed.

Lemma echo_through_server_witness :
  exists client' server',
    serve3 (wire_format 0 0 payload_A) __init__ = inl (Ret tt server')
    /\ emitted __init__ server' = [wire_format 0 0 (worked payload_A)]
    /\ sendVectorMessageWithMode4 payload_A 0 IOMode.Block None
         [readable (wire_format 0 0 (worked payload_A))] __init__
       = Ret (Reply (Some (0, 0, worked payload_A))) client'
    /\ emitted __init__ client' = [wire_format 0 0 payload_A]
    /\ doWork payload_A = Some (worked payload_A).
Proof.
  apply (echo_through_server payload_A 0 None __init__ __init__).
  - apply settled_init.
  - reflexivity.
  - apply settled_init.
  - reflexivity.
  - change (vector __init__) with 0. lia.
  - lia.
  - change (blen payload_A) with 1. lia.
  - change (vector __init__) with 0. lia.
  - intros [H|[]]. discriminate H.
Defined.

Lemma reply_all2_ok (msgs : list bytes) (s : SocketBase) :
  Forall (fun m => blen m < 2 ^ 32) msgs ->
  Forall (fun m => ~ In Byte.xff m) msgs ->
  exists s',
    reply_all2 msgs s = inl (Ret tt s')
    /\ history s' = history s ++ map (fun m => EvWire (frame (worked m))) msgs.
Proof.
  intros Hl. revert s. induction Hl as [|m msgs Hm _ IH]; intros s Hx.
  - exists s. cbn. now rewrite app_nil_r.
  - inversion Hx as [|? ? Hxm Hxr]; subst.
    cbn [reply_all2]. rewrite doWork_Some by exact Hxm.
    rewrite sendMessage2_ok by (now rewrite blen_worked).
    destruct (IH (send1 (Some (frame (worked m))) true s) Hxr) as (s' & E & Hh).
    exists s'. split; [exact E|]. rewrite Hh. cbn. now rewrite <- app_assoc.
Qed.

(** X22.  The layer-2 demo server answers every message of a read, in order.
    When [recv] gives the frames of messages that hold no byte 0xFF, the last
    of them not empty, the round of [ServerEntry] in [scss.py] returns
    normally and has handed over, for each message [m], the frame of
    [doWork(m)]. *)
Theorem layer2_server_replies (msgs : list bytes) (s : SocketBase) :
  settled s -> BytesIO.content (inbuf s) = [] ->
  Forall (fun m => blen m < 2 ^ 32) msgs -> last msgs <> Some [] ->
  Forall (fun m => ~ In Byte.xff m) msgs ->
  exists s',
    serve2 (concat (map frame msgs)) s = inl (Ret tt s')
    /\ emitted s s' = map (fun m => frame (worked m)) msgs.
Proof.
  intros Hs He Hl Hlast Hx. unfold serve2. cbn [send1].
  destruct (settled_coherent s Hs) as [Ht Hc].
  assert (P : parses (concat (map frame msgs) ++ []) (msgs ++ []) []).
  { apply parses_frames; [exact Hl | now constructor | now right]. }
  rewrite !app_nil_r in P.
  rewrite (getAllMessages2_parses (Some (concat (map frame msgs))) s msgs [] Ht Hc)
    by (rewrite He; exact P).
  destruct (reply_all2_ok msgs (with_inbuf [] (pending []) s) Hl Hx) as (s' & E & Hh).
  exists s'. split; [exact E|].
  rewrite (emitted_app s s' _ Hh). rewrite <- (map_map (fun m => frame (worked m)) EvWire).
  apply wire_of_wires.
Qed.

Lemma layer2_server_replies_witness :
  exists s',
    serve2 (concat (map frame [payload_A; payload_B])) __init__ = inl (Ret tt s')
    /\ emitted __init__ s' = map (fun m => frame (worked m)) [payload_A; payload_B].
Proof.
  apply (layer2_server_replies [payload_A; payload_B] __init__).
  - apply settled_init.
  - reflexivity.
  - repeat constructor.
  - discriminate.
  - repeat constructor; intros [H|[]]; discriminate H.
Defined.
